(** * CameraXSDL3: the native frame hand-off, texture presenter and layout

    A shallow embedding of [app/jni/src/camera.c]:

    - [calculateRect], the destination rectangle of the camera picture,
      written once over the arithmetic it uses and run on IEEE binary32
      (the C [float]) and on exact rationals;
    - [getOrientation], the display orientation table;
    - [processYUVImage], the JNI entry point through which the Java
      analyzer thread hands a frame to the native side;
    - [cImage_TextureUpdate], [cImage_Render] and [SDL_AppIterate], the
      render side, with the SDL calls recorded as a trace and their
      results supplied by the environment.

    Both sides run under [image->mutex]; each function below is one
    critical section and the interleaving of the two threads is a
    sequence of such sections.

    The rest of the program follows: [SDL_AppInit], [SDL_AppEvent] and
    runs of submissions, ticks and events; [cImage_New], [cImage_Destroy],
    [free_memory] and [SDL_AppQuit] on a pointer that is null, live or
    freed; and [processImage] of [CameraXsdl3Activity.java], which builds
    the array the native side receives. *)

From Stdlib Require Import ZArith List Bool Lia.
From Stdlib Require Import QArith Lqa.
From Stdlib Require Import Floats.SpecFloat.
From Stdlib Require Import Init.Byte.
Import ListNotations.

Local Open Scope Z_scope.

(** ** Arithmetic of the layout code *)

(** The operations [calculateRect] and the presenter apply to [float]
    values: [+ - * /], the comparison [>] and the conversion of an [int]. *)
Class FloatArith (F : Type) : Type := {
  fadd : F -> F -> F;
  fsub : F -> F -> F;
  fmul : F -> F -> F;
  fdiv : F -> F -> F;
  fgt : F -> F -> bool;
  of_int : Z -> F
}.

(** IEEE 754 binary32, round to nearest even: 24 bits of precision,
    exponents below 128. *)
Module Binary32.
Definition prec : Z := 24.
Definition emax : Z := 128.
Definition float : Type := spec_float.

Definition add : float -> float -> float := SFadd prec emax.
Definition sub : float -> float -> float := SFsub prec emax.
Definition mul : float -> float -> float := SFmul prec emax.
Definition div : float -> float -> float := SFdiv prec emax.
(** [a > b] is false as soon as one side is a NaN. *)
Definition gt (a b : float) : bool := SFltb b a.
Definition of_Z (z : Z) : float := binary_normalize prec emax z 0 false.
End Binary32.

#[export] Instance binary32_arith : FloatArith Binary32.float := {
  fadd := Binary32.add;
  fsub := Binary32.sub;
  fmul := Binary32.mul;
  fdiv := Binary32.div;
  fgt := Binary32.gt;
  of_int := Binary32.of_Z
}.

(** The same operations without rounding, on the rationals. *)
Module Exact.
Definition gt (a b : Q) : bool := negb (Qle_bool a b).
End Exact.

#[export] Instance exact_arith : FloatArith Q := {
  fadd := Qplus;
  fsub := Qminus;
  fmul := Qmult;
  fdiv := Qdiv;
  fgt := Exact.gt;
  of_int := inject_Z
}.

(** ** Geometry *)

Record SDL_FPoint (F : Type) : Type := mkFPoint { px : F; py : F }.
Record SDL_FRect (F : Type) : Type := mkFRect { x : F; y : F; w : F; h : F }.

Arguments mkFPoint {F} _ _.
Arguments px {F} _.
Arguments py {F} _.
Arguments mkFRect {F} _ _ _ _.
Arguments x {F} _.
Arguments y {F} _.
Arguments w {F} _.
Arguments h {F} _.

Definition is_portrait (rotation : Z) : bool :=
  (rotation =? 90) || (rotation =? 270).

Section Layout.
Context {F : Type} `{FloatArith F}.

(** [calculateRect(rect, displayRect, rotation, videoRatio)]; the
    rectangle written through [rect] is the result. *)
Definition calculateRect (displayRect : SDL_FRect F) (rotation : Z)
    (videoRatio : F) : SDL_FRect F :=
  let mid := mkFPoint (fadd (x displayRect) (fdiv (w displayRect) (of_int 2)))
                      (fadd (y displayRect) (fdiv (h displayRect) (of_int 2))) in
  let adjustedWidth := w displayRect in
  let adjustedHeight := h displayRect in
  let '(adjustedWidth, adjustedHeight) :=
    if is_portrait rotation then
      if fgt adjustedHeight (fmul adjustedWidth videoRatio)
      then (fdiv adjustedHeight videoRatio, adjustedHeight)
      else (adjustedWidth, fmul adjustedWidth videoRatio)
    else
      if fgt adjustedWidth (fmul adjustedHeight videoRatio)
      then (adjustedWidth, fdiv adjustedWidth videoRatio)
      else (fmul adjustedHeight videoRatio, adjustedHeight) in
  let '(rw, rh) :=
    if is_portrait rotation
    then (adjustedHeight, adjustedWidth)
    else (adjustedWidth, adjustedHeight) in
  mkFRect (fsub (px mid) (fdiv rw (of_int 2)))
          (fsub (py mid) (fdiv rh (of_int 2)))
          rw rh.
End Layout.

(** ** Orientation *)

Inductive SDL_DisplayOrientation : Type :=
| SDL_ORIENTATION_UNKNOWN
| SDL_ORIENTATION_LANDSCAPE
| SDL_ORIENTATION_LANDSCAPE_FLIPPED
| SDL_ORIENTATION_PORTRAIT
| SDL_ORIENTATION_PORTRAIT_FLIPPED.

(** What the display subsystem answers: [SDL_GetDisplayForWindow] (0 on
    failure), [SDL_GetCurrentDisplayOrientation] and
    [SDL_GetRenderOutputSize] ([None] on failure). *)
Record display : Type := {
  windowDisplayID : Z;
  currOrientation : SDL_DisplayOrientation;
  renderOutputSize : option (Z * Z)
}.

(** The [switch] of [getOrientation], entered after [*orientation = 270]. *)
Definition orientation_angle (o : SDL_DisplayOrientation) : Z :=
  match o with
  | SDL_ORIENTATION_UNKNOWN
  | SDL_ORIENTATION_LANDSCAPE => 180
  | SDL_ORIENTATION_LANDSCAPE_FLIPPED => 0
  | SDL_ORIENTATION_PORTRAIT => 270
  | SDL_ORIENTATION_PORTRAIT_FLIPPED => 90
  end.

(** [getOrientation(&orientation)]: the returned flag, and the value of
    [*orientation] afterwards (untouched when the display is not found). *)
Definition getOrientation (d : display) (orientation : Z) : bool * Z :=
  if windowDisplayID d =? 0 then (false, orientation)
  else (true, orientation_angle (currOrientation d)).

(** [getScreenRect(&window_rect)]. *)
Definition getScreenRect {F : Type} `{FloatArith F} (d : display)
    (window_rect : SDL_FRect F) : bool * SDL_FRect F :=
  match renderOutputSize d with
  | None => (false, window_rect)
  | Some (width, height) =>
      (true, mkFRect (of_int 0) (of_int 0) (of_int width) (of_int height))
  end.

(** ** The shared image *)

(** A texture handle remembers the size it was created with; the pixel
    format (NV12) and the access mode are the same for all of them. *)
Record SDL_Texture : Type := { tex_w : Z; tex_h : Z }.

(** [struct image_s].  [data] is [None] for a null pointer and otherwise
    the heap block it points to; the mutex is implicit (see the header). *)
Record cImage : Type := mkImage {
  texture : option SDL_Texture;
  data : option (list byte);
  length : Z;
  width : Z;
  height : Z;
  videoRatio : Binary32.float;
  new : bool
}.

Definition set_texture (t : option SDL_Texture) (me : cImage) : cImage :=
  mkImage t (data me) (length me) (width me) (height me) (videoRatio me) (new me).
Definition set_data (d : option (list byte)) (me : cImage) : cImage :=
  mkImage (texture me) d (length me) (width me) (height me) (videoRatio me) (new me).
Definition set_length (n : Z) (me : cImage) : cImage :=
  mkImage (texture me) (data me) n (width me) (height me) (videoRatio me) (new me).
Definition set_width (n : Z) (me : cImage) : cImage :=
  mkImage (texture me) (data me) (length me) n (height me) (videoRatio me) (new me).
Definition set_height (n : Z) (me : cImage) : cImage :=
  mkImage (texture me) (data me) (length me) (width me) n (videoRatio me) (new me).
Definition set_videoRatio (r : Binary32.float) (me : cImage) : cImage :=
  mkImage (texture me) (data me) (length me) (width me) (height me) r (new me).
Definition set_new (b : bool) (me : cImage) : cImage :=
  mkImage (texture me) (data me) (length me) (width me) (height me) (videoRatio me) b.

(** The block returned by [calloc(1, sizeof(cImage))]. *)
Definition cImage_zero : cImage :=
  {| texture := None; data := None; length := 0; width := 0; height := 0;
     videoRatio := S754_zero false; new := false |}.

(** Number of bytes of the block behind [data]. *)
Definition capacity (me : cImage) : Z :=
  match data me with
  | Some buf => Z.of_nat (List.length buf)
  | None => 0
  end.

(** What the program asks of its environment, in program order. *)
Inductive event : Type :=
| Log
| DestroyTexture (t : SDL_Texture)
| CreateTexture (width height : Z)
| UpdateTexture (t : option SDL_Texture) (pixels : option (list byte)) (pitch : Z)
| RenderTextureRotated (t : SDL_Texture) (dst : SDL_FRect Binary32.float) (angle : Z)
| RenderClear
| RenderPresent.

(** How a call into the native side ends: it returns, or the process is
    stopped by a write through a null pointer or past the end of the
    block. *)
Inductive outcome (A : Type) : Type :=
| Returns (a : A) (trace : list event)
| NullWrite
| Overflow.

Arguments Returns {A} _ _.
Arguments NullWrite {A}.
Arguments Overflow {A}.

(** A frame as the analyzer thread passes it. *)
Record frame : Type := { yuv_data : list byte; fwidth : Z; fheight : Z }.

(** [GetArrayLength(env, yuv_data)]. *)
Definition GetArrayLength (a : list byte) : Z := Z.of_nat (List.length a).

(** [GetByteArrayRegion(env, yuv_data, 0, data_len, buf)]: the block
    behind [buf] afterwards. *)
Definition GetByteArrayRegion (src : list byte) (buf : option (list byte))
    : outcome (option (list byte)) :=
  match buf with
  | None =>
      match src with
      | [] => Returns None []
      | _ :: _ => NullWrite
      end
  | Some block =>
      if (List.length src <=? List.length block)%nat
      then Returns (Some (src ++ skipn (List.length src) block)) []
      else Overflow
  end.

(** The tail of [processYUVImage], from the copy to the [EXIT] label. *)
Definition copy_and_mark (image : cImage) (f : frame) : outcome cImage :=
  match GetByteArrayRegion (yuv_data f) (data image) with
  | Returns d _ =>
      let image := set_data d image in
      let image := set_new true image in
      let image := set_width (fwidth f) image in
      let image := set_height (fheight f) image in
      Returns image []
  | NullWrite => NullWrite
  | Overflow => Overflow
  end.

(** [Java_com_example_cameraxsdl3_CameraXsdl3Activity_processYUVImage];
    [calloc_ok] tells whether the allocation, if one is made, succeeds. *)
Definition processYUVImage (calloc_ok : bool) (image : cImage) (f : frame)
    : outcome cImage :=
  let data_len := GetArrayLength (yuv_data f) in
  if data_len >? length image then
    let image := set_length data_len image in
    let image := set_data None image in
    if calloc_ok then
      let image := set_data (Some (repeat x00 (Z.to_nat data_len))) image in
      copy_and_mark image f
    else Returns image [Log]
  else copy_and_mark image f.

(** A run of submissions, each with the result of its allocation; the run
    stops where the process does. *)
Fixpoint submit_all (subs : list (bool * frame)) (image : cImage)
    : outcome cImage :=
  match subs with
  | [] => Returns image []
  | (calloc_ok, f) :: rest =>
      match processYUVImage calloc_ok image f with
      | Returns image tr =>
          match submit_all rest image with
          | Returns image tr' => Returns image (tr ++ tr')
          | NullWrite => NullWrite
          | Overflow => Overflow
          end
      | NullWrite => NullWrite
      | Overflow => Overflow
      end
  end.

(** ** The render side *)

(** The file-scope variables of [camera.c] once [SDL_AppInit] has
    succeeded ([window] and [renderer] are opaque handles and are left
    out). *)
Record app : Type := mkApp {
  image : cImage;
  mWidth : Z;
  mHeight : Z;
  mOrientation : Z;
  screenRect : SDL_FRect Binary32.float
}.

Definition set_image (me : cImage) (s : app) : app :=
  mkApp me (mWidth s) (mHeight s) (mOrientation s) (screenRect s).
Definition set_mWidth (n : Z) (s : app) : app :=
  mkApp (image s) n (mHeight s) (mOrientation s) (screenRect s).
Definition set_mHeight (n : Z) (s : app) : app :=
  mkApp (image s) (mWidth s) n (mOrientation s) (screenRect s).
Definition set_mOrientation (n : Z) (s : app) : app :=
  mkApp (image s) (mWidth s) (mHeight s) n (screenRect s).
Definition set_screenRect (r : SDL_FRect Binary32.float) (s : app) : app :=
  mkApp (image s) (mWidth s) (mHeight s) (mOrientation s) r.

(** Results of the SDL calls of one render tick. *)
Record backend : Type := {
  create_ok : bool;
  update_ok : bool;
  draw_ok : bool;
  clear_ok : bool;
  present_ok : bool
}.

Definition SDL_CreateTexture (be : backend) (width height : Z)
    : option SDL_Texture :=
  if create_ok be then Some {| tex_w := width; tex_h := height |} else None.

(** Render-side code: it reads and writes the variables, records its SDL
    calls, and [None] stands for the jump to the [EXIT] label with
    [ret == false]. *)
Module Run.
Definition M (A : Type) : Type := app -> option A * app * list event.

Definition ret {A : Type} (a : A) : M A := fun s => (Some a, s, []).

Definition bind {A B : Type} (m : M A) (k : A -> M B) : M B :=
  fun s =>
    match m s with
    | (Some a, s1, t1) =>
        let '(r, s2, t2) := k a s1 in (r, s2, t1 ++ t2)
    | (None, s1, t1) => (None, s1, t1)
    end.

Definition goto_EXIT {A : Type} : M A := fun s => (None, s, []).
Definition emit (e : event) : M unit := fun s => (Some tt, s, [e]).
Definition gets {A : Type} (f : app -> A) : M A := fun s => (Some (f s), s, []).
Definition modify (f : app -> app) : M unit := fun s => (Some tt, f s, []).
Definition modify_image (f : cImage -> cImage) : M unit :=
  modify (fun s => set_image (f (image s)) s).

(** The [bool] a C function returns, with the state and the trace. *)
Definition returned {A : Type} (m : M A) (s : app) : bool * app * list event :=
  let '(r, s', t) := m s in
  (match r with Some _ => true | None => false end, s', t).
End Run.

Import Run.

Notation "x <- m ;; k" := (bind m (fun x => k))
  (at level 61, m at next level, right associativity).
Notation "m ;; k" := (bind m (fun _ => k))
  (at level 61, right associativity).

(** [LOG_MESSAGE(...); goto EXIT;] when a call reports failure. *)
Definition check (ok : bool) : M unit :=
  if ok then ret tt else emit Log ;; goto_EXIT.

(** Body of [cImage_TextureUpdate] between lock and unlock. *)
Definition TextureUpdate_body (be : backend) : M unit :=
  me <- gets image ;;
  mW <- gets mWidth ;;
  mH <- gets mHeight ;;
  (if negb (mW =? width me) || negb (mH =? height me) then
     (match texture me with
      | Some t => emit (DestroyTexture t)
      | None => ret tt
      end) ;;
     emit (CreateTexture (width me) (height me)) ;;
     let created := SDL_CreateTexture be (width me) (height me) in
     modify_image (set_texture created) ;;
     check (match created with Some _ => true | None => false end) ;;
     modify (set_mWidth (width me)) ;;
     modify (set_mHeight (height me)) ;;
     modify_image (set_videoRatio (fdiv (of_int (width me)) (of_int (height me))))
   else ret tt) ;;
  me <- gets image ;;
  if negb (length me =? 0) then
    if new me then
      emit (UpdateTexture (texture me) (data me) (width me)) ;;
      check (update_ok be) ;;
      modify_image (set_new false)
    else ret tt
  else ret tt.

Definition cImage_TextureUpdate (be : backend) (s : app)
    : bool * app * list event :=
  returned (TextureUpdate_body be) s.

Definition Render_body (be : backend) (parentRect : SDL_FRect Binary32.float)
    (orientation : Z) : M unit :=
  TextureUpdate_body be ;;
  me <- gets image ;;
  let rect := calculateRect parentRect orientation (videoRatio me) in
  match texture me with
  | Some t =>
      emit (RenderTextureRotated t rect orientation) ;;
      check (draw_ok be)
  | None => ret tt
  end.

Definition cImage_Render (be : backend) (parentRect : SDL_FRect Binary32.float)
    (orientation : Z) (s : app) : bool * app * list event :=
  returned (Render_body be parentRect orientation) s.

Inductive SDL_AppResult : Type :=
| SDL_APP_CONTINUE
| SDL_APP_SUCCESS
| SDL_APP_FAILURE.

(** [SDL_AppIterate] up to its [return]s: [None] is
    [return SDL_APP_FAILURE]. *)
Definition Iterate_body (be : backend) : M unit :=
  emit RenderClear ;;
  check (clear_ok be) ;;
  parentRect <- gets screenRect ;;
  orientation <- gets mOrientation ;;
  Render_body be parentRect orientation ;;
  emit RenderPresent ;;
  check (present_ok be).

Definition SDL_AppIterate (be : backend) (s : app)
    : SDL_AppResult * app * list event :=
  let '(ok, s', t) := returned (Iterate_body be) s in
  (if ok then SDL_APP_CONTINUE else SDL_APP_FAILURE, s', t).

Inductive SDL_EventType : Type :=
| SDL_EVENT_QUIT
| SDL_EVENT_WINDOW_RESIZED
| SDL_EVENT_OTHER.

Definition SDL_AppEvent (d : display) (type : SDL_EventType) (s : app)
    : SDL_AppResult * app :=
  match type with
  | SDL_EVENT_QUIT => (SDL_APP_SUCCESS, s)
  | SDL_EVENT_WINDOW_RESIZED =>
      let '(ok, o) := getOrientation d (mOrientation s) in
      let s := set_mOrientation o s in
      if ok then
        let '(ok, r) := getScreenRect d (screenRect s) in
        let s := set_screenRect r s in
        if ok then (SDL_APP_CONTINUE, s) else (SDL_APP_FAILURE, s)
      else (SDL_APP_FAILURE, s)
  | SDL_EVENT_OTHER => (SDL_APP_CONTINUE, s)
  end.

(** What start-up finds: the results of the permission request, of
    [SDL_Init], of [SDL_CreateWindowAndRenderer], of the [calloc] and the
    [SDL_CreateMutex] of [cImage_New], and the display. *)
Record boot : Type := {
  permission_requested : bool;
  sdl_initialized : bool;
  window_created : bool;
  image_allocated : bool;
  mutex_created : bool;
  boot_display : display
}.

(** [SDL_AppInit]: with [SDL_APP_CONTINUE], the variables it leaves. *)
Definition SDL_AppInit (b : boot) : SDL_AppResult * option app :=
  if permission_requested b && sdl_initialized b && window_created b
     && image_allocated b && mutex_created b
  then
    let '(ok, o) := getOrientation (boot_display b) 270 in
    let '(ok', r) :=
      getScreenRect (boot_display b)
        (mkFRect (S754_zero false) (S754_zero false)
                 (S754_zero false) (S754_zero false)) in
    if ok && ok'
    then (SDL_APP_CONTINUE,
          Some {| image := cImage_zero; mWidth := 0; mHeight := 0;
                  mOrientation := o; screenRect := r |})
    else (SDL_APP_FAILURE, None)
  else (SDL_APP_FAILURE, None).

(** A number of render ticks in a row, one [backend] each, stopping at
    the first tick that does not report [SDL_APP_CONTINUE]. *)
Fixpoint iterate (bes : list backend) (s : app)
    : SDL_AppResult * app * list event :=
  match bes with
  | [] => (SDL_APP_CONTINUE, s, [])
  | be :: rest =>
      match SDL_AppIterate be s with
      | (SDL_APP_CONTINUE, s', t) =>
          let '(r, s'', t') := iterate rest s' in (r, s'', t ++ t')
      | other => other
      end
  end.

(** The pixel blocks handed to [SDL_UpdateTexture] in a trace, each with
    its pitch. *)
Fixpoint uploads (t : list event) : list (option (list byte) * Z) :=
  match t with
  | [] => []
  | UpdateTexture _ pixels pitch :: rest => (pixels, pitch) :: uploads rest
  | _ :: rest => uploads rest
  end.

(** ** Vocabulary of the properties *)

(** Contents of the block behind [data]; nothing behind a null pointer. *)
Definition stored (me : cImage) : list byte :=
  match data me with
  | Some block => block
  | None => []
  end.

(** [length] is the size of the block: what [processYUVImage] keeps as
    long as its allocations succeed. *)
Definition sized (me : cImage) : Prop := capacity me = length me.

(** Submissions whose allocations all succeed. *)
Definition granted (fs : list frame) : list (bool * frame) := map (pair true) fs.

(** Largest byte count among [n] and the frames of [fs]. *)
Definition high_water (n : Z) (fs : list frame) : Z :=
  fold_left (fun m f => Z.max m (GetArrayLength (yuv_data f))) fs n.

(** A session after start-up: submissions from the analyzer thread and
    render ticks, in the order in which they take the mutex; [None] once
    the process has stopped or a tick has reported failure. *)
Inductive op : Type :=
| Submit (calloc_ok : bool) (f : frame)
| Tick (be : backend).

Fixpoint session (ops : list op) (s : app) : option app :=
  match ops with
  | [] => Some s
  | Submit calloc_ok f :: rest =>
      match processYUVImage calloc_ok (image s) f with
      | Returns me _ => session rest (set_image me s)
      | NullWrite | Overflow => None
      end
  | Tick be :: rest =>
      match SDL_AppIterate be s with
      | (SDL_APP_CONTINUE, s', _) => session rest s'
      | _ => None
      end
  end.

Definition allocation_granted (o : op) : Prop :=
  match o with
  | Submit calloc_ok _ => calloc_ok = true
  | Tick _ => True
  end.

(** Render-side code that leaves the block and [length] alone. *)
Definition keeps_block {A : Type} (m : M A) : Prop :=
  forall s,
    data (image (snd (fst (m s)))) = data (image s)
    /\ length (image (snd (fst (m s)))) = length (image s).

(** Frames of the sizes the specification uses as its example. *)
Definition frame_100 : frame :=
  {| yuv_data := repeat x11 100; fwidth := 10; fheight := 10 |}.
Definition frame_50 : frame :=
  {| yuv_data := repeat x22 50; fwidth := 5; fheight := 10 |}.

(** The display rectangle [getScreenRect] produces for an output of
    [W] by [H]. *)
Definition screen (W H : Z) : SDL_FRect Binary32.float :=
  mkFRect (of_int 0) (of_int 0) (of_int W) (of_int H).

(** A backend whose calls all succeed. *)
Definition all_ok : backend :=
  {| create_ok := true; update_ok := true; draw_ok := true;
     clear_ok := true; present_ok := true |}.

(** A start-up that goes through, on a 1080 by 1920 portrait display. *)
Definition portrait_phone : boot :=
  {| permission_requested := true; sdl_initialized := true;
     window_created := true; image_allocated := true; mutex_created := true;
     boot_display := {| windowDisplayID := 1;
                        currOrientation := SDL_ORIENTATION_PORTRAIT;
                        renderOutputSize := Some (1080, 1920) |} |}.

(** The variables it leaves. *)
Definition booted : app :=
  {| image := cImage_zero; mWidth := 0; mHeight := 0; mOrientation := 270;
     screenRect := screen 1080 1920 |}.

(** The image after [frame_100] has been submitted to a fresh one. *)
Definition image_100 : cImage :=
  {| texture := None; data := Some (yuv_data frame_100); length := 100;
     width := 10; height := 10; videoRatio := S754_zero false; new := true |}.

(** The trace of [n] ticks that only clear and present. *)
Definition blank_ticks (n : nat) : list event :=
  concat (repeat [RenderClear; RenderPresent] n).

(** [a == b] and [a < b] on [float] values. *)
Definition feq (a b : Binary32.float) : bool := SFeqb a b.
Definition flt (a b : Binary32.float) : bool := SFltb a b.

(** What the rectangle occupies on screen: as it is for 0 and 180, with
    width and height exchanged for 90 and 270 (the turn is about its
    center). *)
Definition shown_size {F : Type} (rotation : Z) (rc : SDL_FRect F) : F * F :=
  if is_portrait rotation then (h rc, w rc) else (w rc, h rc).

(** ** The rest of the program *)

(** *** Render ticks, seen from the state they start in *)

(** The frame size differs from the cached texture size. *)
Definition resized (s : app) : bool :=
  negb (mWidth s =? width (image s)) || negb (mHeight s =? height (image s)).

(** There are bytes and they have not been uploaded. *)
Definition pending (s : app) : bool :=
  negb (length (image s) =? 0) && new (image s).

(** A texture is held once the size test has been passed. *)
Definition drawable (s : app) : bool :=
  resized s || match texture (image s) with Some _ => true | None => false end.

(** The calls of a trace that create or destroy a texture. *)
Definition is_texture_call (e : event) : bool :=
  match e with
  | DestroyTexture _ | CreateTexture _ _ => true
  | _ => false
  end.

Definition texture_calls (t : list event) : list event :=
  filter is_texture_call t.

Definition is_draw (e : event) : bool :=
  match e with
  | RenderTextureRotated _ _ _ => true
  | _ => false
  end.

(** *** Everything that takes a turn after start-up *)

Inductive action : Type :=
| Frame (calloc_ok : bool) (f : frame)
| Iterate (be : backend)
| Event (d : display) (type : SDL_EventType).

(** The variables after a run of turns; [None] once the process has
    stopped, a tick or an event has reported failure, or a quit event has
    ended the loop. *)
Fixpoint lifetime (acts : list action) (s : app) : option app :=
  match acts with
  | [] => Some s
  | Frame calloc_ok f :: rest =>
      match processYUVImage calloc_ok (image s) f with
      | Returns me _ => lifetime rest (set_image me s)
      | NullWrite | Overflow => None
      end
  | Iterate be :: rest =>
      match SDL_AppIterate be s with
      | (SDL_APP_CONTINUE, s', _) => lifetime rest s'
      | _ => None
      end
  | Event d type :: rest =>
      match SDL_AppEvent d type s with
      | (SDL_APP_CONTINUE, s') => lifetime rest s'
      | _ => None
      end
  end.

(** A block, when there is one, has the recorded size. *)
Definition fits (me : cImage) : Prop :=
  0 <= length me
  /\ forall block, data me = Some block ->
                   Z.of_nat (List.length block) = length me.

(** The texture held has the cached size and the ratio is that of this
    size; with no texture, cache and ratio are still zero. *)
Definition presented (s : app) : Prop :=
  match texture (image s) with
  | Some t =>
      tex_w t = mWidth s /\ tex_h t = mHeight s
      /\ videoRatio (image s) = fdiv (of_int (mWidth s)) (of_int (mHeight s))
  | None =>
      mWidth s = 0 /\ mHeight s = 0 /\ videoRatio (image s) = S754_zero false
  end.

(** The angle is one of the table and the display rectangle is a whole
    render output. *)
Definition oriented (s : app) : Prop :=
  In (mOrientation s) [0; 90; 180; 270]
  /\ exists W H, screenRect s = screen W H.

Definition is_log (e : event) : bool :=
  match e with
  | Log => true
  | _ => false
  end.

(** The texture to destroy before a new one is made. *)
Definition destroy_old (old : option SDL_Texture) : list event :=
  match old with
  | Some t => [DestroyTexture t]
  | None => []
  end.

(** The allocations of a run of turns all succeed. *)
Definition turn_granted (a : action) : Prop :=
  match a with
  | Frame calloc_ok _ => calloc_ok = true
  | _ => True
  end.

(** The variables once [frame_100] has been submitted after start-up and
    shown by a tick whose calls succeed. *)
Definition shown_100 : app :=
  snd (fst (SDL_AppIterate all_ok (set_image image_100 booted))).

(** The same run with the SDL calls of its ticks, in order. *)
Fixpoint lifetime_trace (acts : list action) (s : app)
    : option (app * list event) :=
  match acts with
  | [] => Some (s, [])
  | Frame calloc_ok f :: rest =>
      match processYUVImage calloc_ok (image s) f with
      | Returns me _ => lifetime_trace rest (set_image me s)
      | NullWrite | Overflow => None
      end
  | Iterate be :: rest =>
      match SDL_AppIterate be s with
      | (SDL_APP_CONTINUE, s', t) =>
          match lifetime_trace rest s' with
          | Some (s'', t') => Some (s'', t ++ t')
          | None => None
          end
      | _ => None
      end
  | Event d type :: rest =>
      match SDL_AppEvent d type s with
      | (SDL_APP_CONTINUE, s') => lifetime_trace rest s'
      | _ => None
      end
  end.

Definition is_create (e : event) : bool :=
  match e with
  | CreateTexture _ _ => true
  | _ => false
  end.

Definition is_destroy (e : event) : bool :=
  match e with
  | DestroyTexture _ => true
  | _ => false
  end.

(** Number of textures the image holds: one or none. *)
Definition held (me : cImage) : nat :=
  match texture me with
  | Some _ => 1
  | None => 0
  end.

(** *** Allocation and release of the image *)

(** A pointer: null, to a live object, or to memory already freed. *)
Inductive pointer (A : Type) : Type :=
| NULL
| Live (a : A)
| Dangling.

Arguments NULL {A}.
Arguments Live {A} _.
Arguments Dangling {A}.

(** [struct image_s] with its mutex field: [true] for a mutex, [false]
    for a null pointer. *)
Record image_s : Type := { fields : cImage; mutex : bool }.

(** What is handed back to the system. *)
Inductive release : Type :=
| free_data (block : list byte)
| SDL_DestroyMutex
| SDL_DestroyTexture (t : SDL_Texture)
| free_image.

(** [free_memory(mem, freeFunc)]: the call made.  The assignment
    [mem = NULL] is to the parameter and is lost on return: the caller's
    pointer keeps its value. *)
Definition free_memory {A : Type} (mem : A) (freeFunc : A -> release)
    : list release :=
  [freeFunc mem].

(** [cImage_Destroy(me)]: the calls made, or [None] when it reads memory
    that has been freed. *)
Definition cImage_Destroy (me : pointer image_s) : option (list release) :=
  match me with
  | NULL => Some []
  | Live o =>
      Some ((match data (fields o) with
             | Some block => free_memory block free_data
             | None => []
             end)
            ++ (if mutex o then free_memory tt (fun _ => SDL_DestroyMutex) else [])
            ++ (match texture (fields o) with
                | Some t => free_memory t SDL_DestroyTexture
                | None => []
                end)
            ++ free_memory tt (fun _ => free_image))
  | Dangling => None
  end.

(** [cImage_New(addressImage)]: the flag returned, the pointer left in
    [*addressImage], and what was released on the way out. *)
Definition cImage_New (calloc_ok mutex_ok : bool)
    : bool * pointer image_s * list release :=
  if calloc_ok then
    if mutex_ok then (true, Live {| fields := cImage_zero; mutex := true |}, [])
    else
      match cImage_Destroy (Live {| fields := cImage_zero; mutex := false |}) with
      | Some calls => (false, Dangling, calls)
      | None => (false, Dangling, [])
      end
  else
    match cImage_Destroy NULL with
    | Some calls => (false, NULL, calls)
    | None => (false, NULL, [])
    end.

(** The file-scope pointer [image] when [SDL_AppInit] returns: null until
    [cImage_New] is reached. *)
Definition image_after_init (b : boot) : pointer image_s :=
  if permission_requested b && sdl_initialized b && window_created b
  then snd (fst (cImage_New (image_allocated b) (mutex_created b)))
  else NULL.

(** [SDL_AppQuit]: [cImage_Destroy(image)]. *)
Definition SDL_AppQuit (image : pointer image_s) : option (list release) :=
  cImage_Destroy image.

(** The pointer [image] while the program runs on the variables [s]. *)
Definition image_of (s : app) : pointer image_s :=
  Live {| fields := image s; mutex := true |}.

Definition is_texture_release (r : release) : bool :=
  match r with
  | SDL_DestroyTexture _ => true
  | _ => false
  end.

(** The SDL calls of that tick. *)
Definition calls_100 : list event :=
  snd (SDL_AppIterate all_ok (set_image image_100 booted)).

(** *** The analyzer (Java side) *)

(** A Java [int]: 32 bits, two's complement. *)
Definition int (z : Z) : Z :=
  (z + 2147483648) mod 4294967296 - 2147483648.

Definition Integer_MAX_VALUE : Z := 2147483647.

(** How a Java method ends here. *)
Inductive thrown : Type :=
| NegativeArraySizeException
| IndexOutOfBoundsException.

(** A plane is given by the bytes that remain in its buffer. *)
Definition plane : Type := list byte.

(** First loop of [processImage]: [totalSize += remaining]. *)
Definition totalSize (planes : list plane) : Z :=
  fold_left (fun total p => int (total + Z.of_nat (List.length p))) planes 0.

(** [new byte[n]]. *)
Definition new_bytes (n : Z) : thrown + list byte :=
  if n <? 0 then inl NegativeArraySizeException
  else inr (repeat x00 (Z.to_nat n)).

(** [buffer.get(dst, offset, remaining)]: the array afterwards. *)
Definition ByteBuffer_get (dst : list byte) (offset : Z) (p : plane)
    : thrown + list byte :=
  if (offset <? 0) || (Z.of_nat (List.length dst) <? offset + Z.of_nat (List.length p))
  then inl IndexOutOfBoundsException
  else inr (firstn (Z.to_nat offset) dst
            ++ p
            ++ skipn (Z.to_nat offset + List.length p) dst).

(** Second loop of [processImage]. *)
Fixpoint copy_planes (planes : list plane) (data : list byte) (offset : Z)
    : thrown + list byte :=
  match planes with
  | [] => inr data
  | p :: rest =>
      match ByteBuffer_get data offset p with
      | inl e => inl e
      | inr data => copy_planes rest data (int (offset + Z.of_nat (List.length p)))
      end
  end.

(** [processImage(image)]: the frame passed to [processYUVImage]. *)
Definition processImage (planes : list plane) (width height : Z)
    : thrown + frame :=
  match new_bytes (totalSize planes) with
  | inl e => inl e
  | inr data =>
      match copy_planes planes data 0 with
      | inl e => inl e
      | inr data =>
          inr {| yuv_data := data; fwidth := width; fheight := height |}
      end
  end.

(** Bytes of all planes together. *)
Definition plane_bytes (planes : list plane) : Z :=
  Z.of_nat (List.length (concat planes)).


(** The analyzer callback up to the native call: [processImage] and, in
    it, [processYUVImage]. *)
Definition analyze (calloc_ok : bool) (planes : list plane) (width height : Z)
    (me : cImage) : thrown + outcome cImage :=
  match processImage planes width height with
  | inl e => inl e
  | inr f => inr (processYUVImage calloc_ok me f)
  end.

(** Planes of a 4 by 2 picture: luma, then the two chroma buffers. *)
Definition planes_4x2 : list plane :=
  [repeat x10 8; repeat x80 3; repeat x90 3].

(** *** Proof steps for the render side *)

(** Normalise a tick once its tests have been decided. *)
Ltac tick_cases Hl HW HH :=
  repeat (cbn -[calculateRect fdiv of_int Z.eqb];
          rewrite ?Hl, ?HW, ?HH).

Ltac tick_unfold :=
  unfold SDL_AppIterate, cImage_Render, cImage_TextureUpdate, returned,
    Iterate_body, Render_body, TextureUpdate_body, SDL_CreateTexture, check,
    drawable, resized, pending, destroy_old, texture_calls, presented,
    bind, gets, modify_image, modify, emit, ret, goto_EXIT.

(** * Properties *)

(** ** Submission *)

Lemma capacity_stored (me : cImage) :
  capacity me = Z.of_nat (List.length (stored me)).
Proof. unfold capacity, stored. destruct (data me); reflexivity. Qed.

Lemma sized_zero : sized cImage_zero.
Proof. reflexivity. Qed.

Lemma copy_into_block (src block : list byte) :
  (List.length src <= List.length block)%nat ->
  GetByteArrayRegion src (Some block)
  = Returns (Some (src ++ skipn (List.length src) block)) [].
Proof.
  intros Hle. unfold GetByteArrayRegion.
  destruct (Nat.leb_spec (List.length src) (List.length block)); [reflexivity | lia].
Qed.

Lemma patched_length (src block : list byte) :
  (List.length src <= List.length block)%nat ->
  List.length (src ++ skipn (List.length src) block) = List.length block.
Proof. intros Hle. rewrite length_app, length_skipn. lia. Qed.

Lemma patched_prefix (src rest : list byte) :
  firstn (List.length src) (src ++ rest) = src.
Proof.
  rewrite firstn_app, Nat.sub_diag, firstn_all. cbn. apply app_nil_r.
Qed.

(** One submission whose allocation, if any, succeeds, from a state whose
    block has the recorded size. *)
Lemma processYUVImage_granted (me : cImage) (f : frame) :
  sized me ->
  exists me',
    processYUVImage true me f = Returns me' []
    /\ sized me'
    /\ length me' = Z.max (length me) (GetArrayLength (yuv_data f))
    /\ width me' = fwidth f /\ height me' = fheight f /\ new me' = true
    /\ texture me' = texture me /\ videoRatio me' = videoRatio me
    /\ firstn (List.length (yuv_data f)) (stored me') = yuv_data f
    /\ (GetArrayLength (yuv_data f) <= length me ->
        List.length (stored me') = List.length (stored me)).
Proof.
  intros Hs. unfold sized in Hs. rewrite capacity_stored in Hs.
  unfold processYUVImage, GetArrayLength.
  destruct (Z.gtb_spec (Z.of_nat (List.length (yuv_data f))) (length me)) as [Hgt | Hle].
  - unfold copy_and_mark. cbn [data set_data set_length].
    rewrite copy_into_block by (rewrite repeat_length; lia).
    eexists. split; [reflexivity |].
    unfold sized, capacity, stored; cbn.
    rewrite Nat2Z.id, skipn_all2 by (rewrite repeat_length; lia).
    rewrite app_nil_r, firstn_all.
    repeat split; try reflexivity; lia.
  - unfold copy_and_mark, stored in *.
    destruct (data me) as [block |] eqn:Hd.
    + rewrite copy_into_block by lia.
      eexists. split; [reflexivity |].
      unfold sized, capacity, stored; cbn.
      rewrite patched_length by lia. rewrite patched_prefix.
      repeat split; try reflexivity; lia.
    + cbn in Hs. destruct (yuv_data f) as [| b src] eqn:Hf; [| cbn in Hle; lia].
      cbn. eexists. split; [reflexivity |].
      unfold sized, capacity, stored; cbn.
      repeat split; try reflexivity; cbn; lia.
Qed.

(** A run of such submissions returns, and keeps the block sized. *)
Lemma submit_all_granted (fs : list frame) : forall me,
  sized me ->
  exists me',
    submit_all (granted fs) me = Returns me' []
    /\ sized me'
    /\ length me' = high_water (length me) fs
    /\ length me <= length me'.
Proof.
  induction fs as [| f fs IH]; intros me Hs.
  - exists me. cbn. repeat split; [assumption | lia].
  - destruct (processYUVImage_granted me f Hs)
      as (me1 & Hrun & Hs1 & Hlen & _).
    destruct (IH me1 Hs1) as (me2 & Hrun2 & Hs2 & Hlen2 & Hmono).
    exists me2. change (granted (f :: fs)) with ((true, f) :: granted fs).
    cbn [submit_all]. rewrite Hrun, Hrun2. cbn [List.app].
    repeat split; [assumption | rewrite Hlen2, Hlen; reflexivity | lia].
Qed.








(** C1, as stated, fails: after a 100-byte and then a 50-byte frame the
    block still has 100 bytes, but [length] is 100 as well, not the 50
    bytes of the frame submitted last. *)
Lemma submit_100_then_50 :
  exists me,
    submit_all (granted [frame_100; frame_50]) cImage_zero = Returns me []
    /\ 100 <= capacity me
    /\ length me = 100
    /\ length me <> GetArrayLength (yuv_data frame_50).
Proof.
  eexists. split; [vm_compute; reflexivity |].
  vm_compute. repeat split; discriminate.
Qed.

(** C1, amended: [length] records the largest byte count submitted so
    far, which is the size of the storage block; it is written only when
    the block grows.  Stated for any run of submissions whose allocations
    succeed, from any state whose block has the recorded size. *)
Theorem length_is_high_water (fs : list frame) (me : cImage) :
  sized me ->
  exists me',
    submit_all (granted fs) me = Returns me' []
    /\ length me' = high_water (length me) fs
    /\ capacity me' = length me'.
Proof.
  intros Hs.
  destruct (submit_all_granted fs me Hs) as (me' & Hrun & Hs' & Hlen & _).
  exists me'. repeat split; assumption.
Qed.

Lemma length_is_high_water_witness :
  sized cImage_zero
  /\ exists me',
       submit_all (granted [frame_100; frame_50]) cImage_zero = Returns me' []
       /\ length me' = 100
       /\ capacity me' = length me'.
Proof.
  split; [reflexivity |].
  exact (length_is_high_water [frame_100; frame_50] cImage_zero eq_refl).
Defined.



(** A submission that needs a larger block and is refused one. *)
Lemma processYUVImage_refused (me : cImage) (f : frame) :
  GetArrayLength (yuv_data f) > length me ->
  exists me',
    processYUVImage false me f = Returns me' [Log]
    /\ new me' = new me
    /\ width me' = width me
    /\ height me' = height me
    /\ length me' = GetArrayLength (yuv_data f)
    /\ length me' > length me
    /\ data me' = None.
Proof.
  intros Hgt. unfold processYUVImage.
  destruct (Z.gtb_spec (GetArrayLength (yuv_data f)) (length me)); [| lia].
  eexists. split; [reflexivity |]. cbn. repeat split; lia.
Qed.

(** C9: when the allocation of a larger block fails, the call logs and
    returns; [new], [width] and [height] are as before, while [length]
    already holds the size asked for and the old block is gone. *)
Theorem failed_growth_not_atomic (me : cImage) (f : frame) :
  GetArrayLength (yuv_data f) > length me ->
  exists me',
    processYUVImage false me f = Returns me' [Log]
    /\ new me' = new me
    /\ width me' = width me
    /\ height me' = height me
    /\ length me' = GetArrayLength (yuv_data f)
    /\ length me' > length me
    /\ data me' = None.
Proof.
  intros Hgt. unfold processYUVImage.
  destruct (Z.gtb_spec (GetArrayLength (yuv_data f)) (length me)) as [_ | Hle];
    [| lia].
  cbn [set_length set_data].
  eexists. split; [reflexivity |].
  cbn [new width height length data]. repeat split; assumption.
Qed.

Lemma failed_growth_not_atomic_witness :
  GetArrayLength (yuv_data frame_100) > length cImage_zero
  /\ exists me',
       processYUVImage false cImage_zero frame_100 = Returns me' [Log]
       /\ new me' = new cImage_zero
       /\ width me' = width cImage_zero
       /\ height me' = height cImage_zero
       /\ length me' = GetArrayLength (yuv_data frame_100)
       /\ length me' > length cImage_zero
       /\ data me' = None.
Proof.
  split; [reflexivity |].
  exact (failed_growth_not_atomic cImage_zero frame_100 eq_refl).
Defined.

(** After a refused growth the next frame of that size is not larger than
    [length], so no block is allocated and the copy goes through the null
    pointer. *)
Lemma refused_growth_then_copy (ok : bool) (me : cImage) (f : frame) :
  0 <= length me ->
  GetArrayLength (yuv_data f) > length me ->
  exists me',
    processYUVImage false me f = Returns me' [Log]
    /\ processYUVImage ok me' f = NullWrite.
Proof.
  intros Hpos Hgt.
  destruct (processYUVImage_refused me f Hgt)
    as (me' & Hrun & _ & _ & _ & Hlen & _ & Hnull).
  exists me'. split; [assumption |].
  unfold processYUVImage.
  destruct (Z.gtb_spec (GetArrayLength (yuv_data f)) (length me')); [lia |].
  unfold copy_and_mark, GetByteArrayRegion. rewrite Hnull.
  destruct (yuv_data f) as [| b src]; [| reflexivity].
  cbn in Hgt. lia.
Qed.

(** ** Consumption *)

Lemma portrait_phone_boots :
  SDL_AppInit portrait_phone = (SDL_APP_CONTINUE, Some booted).
Proof. reflexivity. Qed.

Lemma bind_continues {A B : Type} (m : M A) (k : A -> M B) (s s1 : app)
    (a : A) (t1 : list event) :
  m s = (Some a, s1, t1) ->
  bind m k s = (let '(r, s2, t2) := k a s1 in (r, s2, t1 ++ t2)).
Proof. intros Hm. unfold bind. rewrite Hm. reflexivity. Qed.

(** The texture update when the backend does what it is asked (the
    upload may fail if there is nothing to upload). *)
Lemma TextureUpdate_body_ok (be : backend) (s : app) :
  create_ok be = true ->
  update_ok be = true \/ new (image s) = false ->
  exists s' t,
    TextureUpdate_body be s = (Some tt, s', t)
    /\ mWidth s' = width (image s) /\ mHeight s' = height (image s)
    /\ mOrientation s' = mOrientation s /\ screenRect s' = screenRect s
    /\ data (image s') = data (image s)
    /\ length (image s') = length (image s)
    /\ width (image s') = width (image s)
    /\ height (image s') = height (image s)
    /\ new (image s') = new (image s) && (length (image s) =? 0)
    /\ uploads t
       = if negb (length (image s) =? 0) && new (image s)
         then [(data (image s), width (image s))] else [].
Proof.
  intros Hc Hu. destruct s as [me mW mH o r]. cbn [image] in Hu.
  unfold TextureUpdate_body, SDL_CreateTexture, check, bind, gets, modify_image,
    modify, emit, ret, goto_EXIT.
  cbn [image mWidth mHeight mOrientation screenRect].
  rewrite Hc.
  destruct (negb (mW =? width me) || negb (mH =? height me)) eqn:Hdim.
  - destruct (texture me) as [old |]; cbn;
      destruct (length me =? 0); cbn;
      destruct (new me) eqn:Hn; cbn;
      try (destruct Hu as [Hu | Hu]; [rewrite Hu | discriminate]; cbn);
      do 2 eexists; (split; [reflexivity |]); cbn; rewrite ?Hn; repeat split; reflexivity.
  - apply orb_false_elim in Hdim as [HW HH].
    apply negb_false_iff, Z.eqb_eq in HW, HH. subst mW mH. cbn.
    destruct (length me =? 0); cbn;
      destruct (new me) eqn:Hn; cbn;
      try (destruct Hu as [Hu | Hu]; [rewrite Hu | discriminate]; cbn);
      do 2 eexists; (split; [reflexivity |]); cbn; rewrite ?Hn; repeat split; reflexivity.
Qed.

(** With the cached size in step and nothing new to upload, the texture
    update touches nothing and calls nothing, whatever the backend. *)
Lemma TextureUpdate_body_idle (be : backend) (s : app) :
  mWidth s = width (image s) ->
  mHeight s = height (image s) ->
  new (image s) = false \/ length (image s) = 0 ->
  TextureUpdate_body be s = (Some tt, s, []).
Proof.
  destruct s as [me mW mH o r]. cbn [image mWidth mHeight].
  intros -> -> Hidle.
  unfold TextureUpdate_body, bind, gets, ret.
  cbn [image mWidth mHeight].
  rewrite !Z.eqb_refl. cbn.
  destruct Hidle as [Hn | Hl]; [| rewrite Hl; reflexivity].
  rewrite Hn. destruct (length me =? 0); reflexivity.
Qed.






(** ** Render ticks *)






(** What a successful start-up leaves: a zeroed image and the cached
    texture size at zero. *)
Lemma SDL_AppInit_state (b : boot) (s : app) :
  SDL_AppInit b = (SDL_APP_CONTINUE, Some s) ->
  image s = cImage_zero /\ mWidth s = 0 /\ mHeight s = 0.
Proof.
  unfold SDL_AppInit.
  destruct (permission_requested b && sdl_initialized b && window_created b
            && image_allocated b && mutex_created b); [| discriminate].
  destruct (getOrientation (boot_display b) 270) as [ok o].
  destruct (getScreenRect _ _) as [ok' r].
  destruct (ok && ok'); [| discriminate].
  intros [= <-]. repeat split.
Qed.

Lemma cImage_Render_idle (be : backend) (rect : SDL_FRect Binary32.float)
    (o : Z) (s : app) :
  image s = cImage_zero -> mWidth s = 0 -> mHeight s = 0 ->
  Render_body be rect o s = (Some tt, s, []).
Proof.
  intros Hi HW HH.
  assert (Hidle : TextureUpdate_body be s = (Some tt, s, [])).
  { apply TextureUpdate_body_idle; rewrite Hi; try assumption. left. reflexivity. }
  unfold Render_body. rewrite (bind_continues _ _ _ _ _ _ Hidle).
  unfold bind, gets. rewrite Hi. reflexivity.
Qed.

Lemma SDL_AppIterate_idle (be : backend) (s : app) :
  image s = cImage_zero -> mWidth s = 0 -> mHeight s = 0 ->
  clear_ok be = true -> present_ok be = true ->
  SDL_AppIterate be s = (SDL_APP_CONTINUE, s, [RenderClear; RenderPresent]).
Proof.
  intros Hi HW HH Hcl Hp.
  pose proof (cImage_Render_idle be (screenRect s) (mOrientation s) s Hi HW HH) as Hr.
  unfold SDL_AppIterate, returned, Iterate_body, check. rewrite Hcl, Hp.
  unfold bind at 1 2 3 4. cbn -[Render_body bind].
  rewrite (bind_continues _ _ _ _ _ _ Hr). reflexivity.
Qed.

(** C10: after a successful start-up and before any frame is submitted,
    rendering the image succeeds without any SDL call and changes
    nothing, whatever the backend, the rectangle and the orientation; so
    any number of ticks whose clear and present succeed all report
    [SDL_APP_CONTINUE], and clear and present are the only calls made. *)
Theorem render_before_first_frame (b : boot) (s : app) :
  SDL_AppInit b = (SDL_APP_CONTINUE, Some s) ->
  width (image s) = mWidth s /\ height (image s) = mHeight s
  /\ length (image s) = 0 /\ texture (image s) = None
  /\ (forall be, cImage_TextureUpdate be s = (true, s, []))
  /\ (forall be rect o, cImage_Render be rect o s = (true, s, []))
  /\ (forall bes,
       Forall (fun be => clear_ok be = true /\ present_ok be = true) bes ->
       iterate bes s = (SDL_APP_CONTINUE, s, blank_ticks (List.length bes))).
Proof.
  intros Hinit.
  destruct (SDL_AppInit_state b s Hinit) as (Hi & HW & HH).
  rewrite Hi, HW, HH. repeat split.
  - intros be. unfold cImage_TextureUpdate, returned.
    rewrite TextureUpdate_body_idle; rewrite ?Hi; try assumption; auto.
  - intros be rect o. unfold cImage_Render, returned.
    rewrite cImage_Render_idle by assumption. reflexivity.
  - intros bes Hall. induction Hall as [| be bes [Hcl Hp] _ IH]; [reflexivity |].
    cbn [iterate]. rewrite SDL_AppIterate_idle by assumption.
    rewrite IH. reflexivity.
Qed.

Lemma render_before_first_frame_witness :
  SDL_AppInit portrait_phone = (SDL_APP_CONTINUE, Some booted)
  /\ width (image booted) = mWidth booted
  /\ height (image booted) = mHeight booted
  /\ length (image booted) = 0 /\ texture (image booted) = None
  /\ (forall be, cImage_TextureUpdate be booted = (true, booted, []))
  /\ (forall be rect o, cImage_Render be rect o booted = (true, booted, []))
  /\ (forall bes,
       Forall (fun be => clear_ok be = true /\ present_ok be = true) bes ->
       iterate bes booted
       = (SDL_APP_CONTINUE, booted, blank_ticks (List.length bes))).
Proof.
  split; [reflexivity |].
  exact (render_before_first_frame portrait_phone booted eq_refl).
Defined.

(** ** Sessions *)

Create HintDb block discriminated.

Lemma keeps_block_ret {A : Type} (a : A) : keeps_block (ret a).
Proof. intros s. split; reflexivity. Qed.

Lemma keeps_block_goto_EXIT {A : Type} : keeps_block (@goto_EXIT A).
Proof. intros s. split; reflexivity. Qed.

Lemma keeps_block_emit (e : event) : keeps_block (emit e).
Proof. intros s. split; reflexivity. Qed.

Lemma keeps_block_gets {A : Type} (f : app -> A) : keeps_block (gets f).
Proof. intros s. split; reflexivity. Qed.

Lemma keeps_block_modify (f : app -> app) :
  (forall s, data (image (f s)) = data (image s)
             /\ length (image (f s)) = length (image s)) ->
  keeps_block (modify f).
Proof. intros Hf s. apply Hf. Qed.

Lemma keeps_block_bind {A B : Type} (m : M A) (k : A -> M B) :
  keeps_block m -> (forall a, keeps_block (k a)) -> keeps_block (bind m k).
Proof.
  intros Hm Hk s. unfold bind. specialize (Hm s).
  destruct (m s) as [[[a |] s1] t1]; cbn in *; [| assumption].
  specialize (Hk a s1). destruct (k a s1) as [[r s2] t2]. cbn in *.
  destruct Hm, Hk. split; congruence.
Qed.

#[local] Hint Resolve keeps_block_ret keeps_block_goto_EXIT keeps_block_emit
  keeps_block_gets keeps_block_bind : block.

Lemma keeps_block_check (ok : bool) : keeps_block (check ok).
Proof. unfold check. destruct ok; auto with block. Qed.

#[local] Hint Resolve keeps_block_check : block.

Lemma keeps_block_TextureUpdate (be : backend) :
  keeps_block (TextureUpdate_body be).
Proof.
  unfold TextureUpdate_body.
  repeat (apply keeps_block_bind; [auto with block | intros]).
  - destruct (_ || _); [| auto with block].
    repeat (apply keeps_block_bind; [| intros]); auto with block;
      try (apply keeps_block_modify; intros; split; reflexivity).
    destruct (texture _); auto with block.
  - destruct (negb _); [| auto with block].
    destruct (new _); [| auto with block].
    repeat (apply keeps_block_bind; [| intros]); auto with block.
    apply keeps_block_modify; intros; split; reflexivity.
Qed.

Lemma keeps_block_Render (be : backend) (rect : SDL_FRect Binary32.float)
    (o : Z) :
  keeps_block (Render_body be rect o).
Proof.
  unfold Render_body.
  apply keeps_block_bind; [apply keeps_block_TextureUpdate | intros _].
  apply keeps_block_bind; [auto with block | intros me].
  destruct (texture me); auto with block.
Qed.

Lemma keeps_block_Iterate (be : backend) : keeps_block (Iterate_body be).
Proof.
  unfold Iterate_body.
  do 4 (apply keeps_block_bind; [auto with block | intros ?]).
  apply keeps_block_bind; [apply keeps_block_Render | intros _].
  auto with block.
Qed.

(** A tick never touches the block or [length]. *)
Lemma SDL_AppIterate_keeps_block (be : backend) (s : app) :
  data (image (snd (fst (SDL_AppIterate be s)))) = data (image s)
  /\ length (image (snd (fst (SDL_AppIterate be s)))) = length (image s).
Proof.
  pose proof (keeps_block_Iterate be s) as Hk.
  unfold SDL_AppIterate, returned.
  destruct (Iterate_body be s) as [[r s'] t]. exact Hk.
Qed.

(** Every state a session reaches while allocations succeed has a block
    of the recorded size: the states the theorems on submissions start
    from. *)
Lemma session_sized (ops : list op) : forall s s',
  sized (image s) ->
  Forall allocation_granted ops ->
  session ops s = Some s' ->
  sized (image s').
Proof.
  induction ops as [| [ok f | be] ops IH]; intros s s' Hs Hall Hrun; cbn in Hrun.
  - injection Hrun as <-. assumption.
  - inversion Hall as [| ? ? Hok Hrest]; subst. cbn in Hok. subst ok.
    destruct (processYUVImage_granted (image s) f Hs) as (me & Hp & Hs1 & _).
    rewrite Hp in Hrun. apply (IH (set_image me s) s' Hs1 Hrest Hrun).
  - inversion Hall as [| ? ? _ Hrest]; subst.
    pose proof (SDL_AppIterate_keeps_block be s) as [Hd Hl].
    destruct (SDL_AppIterate be s) as [[[| |] s1] t]; try discriminate.
    cbn in Hd, Hl. apply (IH s1 s'); try assumption.
    unfold sized, capacity in *. rewrite Hd, Hl. assumption.
Qed.

Lemma booted_session_sized (b : boot) (s0 s : app) (ops : list op) :
  SDL_AppInit b = (SDL_APP_CONTINUE, Some s0) ->
  Forall allocation_granted ops ->
  session ops s0 = Some s ->
  sized (image s).
Proof.
  intros Hinit. apply session_sized.
  destruct (SDL_AppInit_state b s0 Hinit) as (Hi & _). rewrite Hi. reflexivity.
Qed.

(** ** Orientation table *)

(** C8: when the display is found, [getOrientation] succeeds and stores,
    whatever was stored before, 180 for unknown and for landscape, 0 for
    landscape-flipped, 270 for portrait and 90 for portrait-flipped; the
    angle stored is one of 0, 90, 180, 270. *)
Theorem getOrientation_table (d : display) (before : Z) :
  windowDisplayID d <> 0 ->
  exists angle,
    getOrientation d before = (true, angle)
    /\ (currOrientation d = SDL_ORIENTATION_UNKNOWN -> angle = 180)
    /\ (currOrientation d = SDL_ORIENTATION_LANDSCAPE -> angle = 180)
    /\ (currOrientation d = SDL_ORIENTATION_LANDSCAPE_FLIPPED -> angle = 0)
    /\ (currOrientation d = SDL_ORIENTATION_PORTRAIT -> angle = 270)
    /\ (currOrientation d = SDL_ORIENTATION_PORTRAIT_FLIPPED -> angle = 90)
    /\ In angle [0; 90; 180; 270].
Proof.
  intros Hd. unfold getOrientation.
  destruct (Z.eqb_spec (windowDisplayID d) 0) as [| _]; [contradiction |].
  eexists. split; [reflexivity |].
  destruct (currOrientation d); cbn; repeat split;
    intros; try discriminate; try reflexivity; auto.
Qed.

Lemma getOrientation_table_witness :
  windowDisplayID (boot_display portrait_phone) <> 0
  /\ exists angle,
       getOrientation (boot_display portrait_phone) 0 = (true, angle)
       /\ (currOrientation (boot_display portrait_phone)
           = SDL_ORIENTATION_UNKNOWN -> angle = 180)
       /\ (currOrientation (boot_display portrait_phone)
           = SDL_ORIENTATION_LANDSCAPE -> angle = 180)
       /\ (currOrientation (boot_display portrait_phone)
           = SDL_ORIENTATION_LANDSCAPE_FLIPPED -> angle = 0)
       /\ (currOrientation (boot_display portrait_phone)
           = SDL_ORIENTATION_PORTRAIT -> angle = 270)
       /\ (currOrientation (boot_display portrait_phone)
           = SDL_ORIENTATION_PORTRAIT_FLIPPED -> angle = 90)
       /\ In angle [0; 90; 180; 270].
Proof.
  split; [discriminate |].
  refine (getOrientation_table (boot_display portrait_phone) 0 _).
  discriminate.
Defined.

(** ** Layout *)

Lemma screen_is_getScreenRect (W H : Z) (d : display)
    (old : SDL_FRect Binary32.float) :
  renderOutputSize d = Some (W, H) ->
  getScreenRect d old = (true, screen W H).
Proof. intros Hd. unfold getScreenRect. rewrite Hd. reflexivity. Qed.

(** Whatever the arithmetic, one side of the rectangle is the other one
    multiplied or divided by the ratio, once, and the rectangle is placed
    half its size before the middle of the display. *)
Lemma calculateRect_sides {F : Type} `{FloatArith F} (d : SDL_FRect F)
    (rotation : Z) (r : F) :
  let rc := calculateRect d rotation r in
  (w rc = fmul (h rc) r \/ h rc = fdiv (w rc) r)
  /\ x rc = fsub (fadd (x d) (fdiv (w d) (of_int 2))) (fdiv (w rc) (of_int 2))
  /\ y rc = fsub (fadd (y d) (fdiv (h d) (of_int 2))) (fdiv (h rc) (of_int 2)).
Proof.
  unfold calculateRect. destruct (is_portrait rotation).
  - destruct (fgt (h d) (fmul (w d) r)); cbn; auto.
  - destruct (fgt (w d) (fmul (h d) r)); cbn; auto.
Qed.


(** On [float] the ratio is met up to rounding only: a 100 by 100
    display with ratio 4/3. *)
Lemma ratio_is_rounded :
  let r := fdiv (of_int 4) (of_int 3) in
  let rc := calculateRect (screen 100 100) 0 r in
  feq (fdiv (w rc) (h rc)) r = false.
Proof. vm_compute. reflexivity. Qed.

Local Open Scope Q_scope.

Lemma exact_gt_true (a b : Q) : Exact.gt a b = true -> b < a.
Proof.
  unfold Exact.gt. intros Hgt. apply negb_true_iff in Hgt.
  apply Qnot_le_lt. intros Hle. apply Qle_bool_iff in Hle. congruence.
Qed.

Lemma exact_gt_false (a b : Q) : Exact.gt a b = false -> a <= b.
Proof.
  unfold Exact.gt. intros Hgt. apply negb_false_iff in Hgt.
  apply Qle_bool_iff. assumption.
Qed.



(** Without rounding the picture covers the display: it is at least as
    wide and as high, and exactly as wide or exactly as high. *)
Lemma calculateRect_covers (vx vy W H r : Q) (rotation : Z) :
  0 < W -> 0 < H -> 0 < r ->
  let '(sw, sh) :=
    shown_size rotation (calculateRect (mkFRect vx vy W H) rotation r) in
  W <= sw /\ H <= sh /\ (sw == W \/ sh == H).
Proof.
  intros HW HH Hr. unfold shown_size, calculateRect.
  cbn [x y w h px py fadd fsub fmul fdiv fgt of_int exact_arith].
  destruct (is_portrait rotation).
  - destruct (Exact.gt H (W * r)) eqn:Hgt; cbn [w h];
      [apply exact_gt_true in Hgt | apply exact_gt_false in Hgt];
      repeat split; try lra; apply Qle_shift_div_l; lra.
  - destruct (Exact.gt W (H * r)) eqn:Hgt; cbn [w h];
      [apply exact_gt_true in Hgt | apply exact_gt_false in Hgt];
      repeat split; try lra; apply Qle_shift_div_l; lra.
Qed.

Local Close Scope Q_scope.

(** C3 at a 200 by 100 display, rotation 0 and ratio 1: the rectangle is
    200 by 200 at (0, -50), so it starts above the display and ends 50
    below it.  At the 1080 by 1920 display of the specification, with
    rotation 270 and ratio 320/280, it is 1920 wide at x = -420. *)
Lemma calculateRect_leaves_display :
  let rc := calculateRect (screen 200 100) 0 (of_int 1) in
  let rs := calculateRect (screen 1080 1920) 270 (fdiv (of_int 320) (of_int 280)) in
  rc = mkFRect (of_int 0) (of_int (-50)) (of_int 200) (of_int 200)
  /\ flt (y rc) (y (screen 200 100)) = true
  /\ flt (fadd (y (screen 200 100)) (h (screen 200 100)))
         (fadd (y rc) (h rc)) = true
  /\ x rs = of_int (-420) /\ w rs = of_int 1920
  /\ flt (x rs) (x (screen 1080 1920)) = true
  /\ flt (fadd (x (screen 1080 1920)) (w (screen 1080 1920)))
         (fadd (x rs) (w rs)) = true.
Proof. vm_compute. repeat split. Qed.

(** * The rest of the program *)

(** ** Render ticks under any backend *)


(** Result of a tick and what it leaves of the frame. *)
Lemma SDL_AppIterate_cases (be : backend) (s : app) :
  let '(r, s', t) := SDL_AppIterate be s in
  r = (if clear_ok be
          && implb (resized s) (create_ok be)
          && implb (pending s) (update_ok be)
          && implb (drawable s) (draw_ok be)
          && present_ok be
       then SDL_APP_CONTINUE else SDL_APP_FAILURE)
  /\ mOrientation s' = mOrientation s /\ screenRect s' = screenRect s
  /\ data (image s') = data (image s) /\ length (image s') = length (image s)
  /\ width (image s') = width (image s) /\ height (image s') = height (image s).
Proof.
  destruct s as [[tx d l wd ht vr nw] mW mH o sr].
  destruct be as [c u dr cl p].
  tick_unfold.
  destruct (l =? 0) eqn:Hl; destruct (mW =? wd) eqn:HW; destruct (mH =? ht) eqn:HH;
    destruct cl; destruct tx as [old |]; destruct c; destruct nw;
    destruct u; destruct dr; destruct p;
    tick_cases Hl HW HH; repeat split.
Qed.

(** What a tick that reports [SDL_APP_CONTINUE] leaves of the presenter. *)
Lemma SDL_AppIterate_continue_state (be : backend) (s s' : app)
    (t : list event) :
  SDL_AppIterate be s = (SDL_APP_CONTINUE, s', t) ->
  mWidth s' = width (image s) /\ mHeight s' = height (image s)
  /\ resized s' = false /\ pending s' = false
  /\ (presented s -> presented s').
Proof.
  destruct s as [[tx d l wd ht vr nw] mW mH o sr].
  destruct be as [c u dr cl p].
  tick_unfold.
  destruct (l =? 0) eqn:Hl; destruct (mW =? wd) eqn:HW; destruct (mH =? ht) eqn:HH;
    destruct cl; destruct tx as [old |]; destruct c; destruct nw;
    destruct u; destruct dr; destruct p;
    tick_cases Hl HW HH;
    intros Heq; inversion Heq; subst; clear Heq;
    tick_cases Hl HW HH;
    rewrite ?Z.eqb_refl; cbn;
    try (apply Z.eqb_eq in HW); try (apply Z.eqb_eq in HH);
    repeat split; auto; tauto.
Qed.

(** A tick that starts with the cache in step and nothing to upload. *)
Lemma SDL_AppIterate_synced (be : backend) (s : app) :
  resized s = false ->
  pending s = false ->
  let '(r, s', t) := SDL_AppIterate be s in
  s' = s /\ uploads t = [] /\ texture_calls t = []
  /\ r = (if clear_ok be
             && implb (match texture (image s) with
                       | Some _ => true
                       | None => false
                       end) (draw_ok be)
             && present_ok be
          then SDL_APP_CONTINUE else SDL_APP_FAILURE).
Proof.
  destruct s as [[tx d l wd ht vr nw] mW mH o sr].
  destruct be as [c u dr cl p].
  tick_unfold.
  intros Hr Hp. cbn -[Z.eqb] in Hr, Hp.
  destruct (l =? 0) eqn:Hl; destruct (mW =? wd) eqn:HW; destruct (mH =? ht) eqn:HH;
    destruct nw; try discriminate;
    destruct cl; destruct tx as [old |]; destruct dr; destruct p;
    tick_cases Hl HW HH; repeat split.
Qed.

(** X1: a render tick reports [SDL_APP_CONTINUE] exactly when every SDL
    call it has to make succeeds: the clear, the texture creation if the
    frame size differs from the cached one, the upload if there are bytes
    not yet uploaded, the draw if a texture is held, and the present.
    Otherwise it reports [SDL_APP_FAILURE]; it never reports
    [SDL_APP_SUCCESS]. *)
Theorem tick_continues_iff_calls_succeed (be : backend) (s : app) :
  (fst (fst (SDL_AppIterate be s)) = SDL_APP_CONTINUE <->
   clear_ok be = true
   /\ (resized s = true -> create_ok be = true)
   /\ (pending s = true -> update_ok be = true)
   /\ (drawable s = true -> draw_ok be = true)
   /\ present_ok be = true)
  /\ (fst (fst (SDL_AppIterate be s)) <> SDL_APP_CONTINUE ->
      fst (fst (SDL_AppIterate be s)) = SDL_APP_FAILURE).
Proof.
  pose proof (SDL_AppIterate_cases be s) as Hc.
  destruct (SDL_AppIterate be s) as [[r s'] t]. destruct Hc as (-> & _).
  cbn [fst].
  destruct (clear_ok be), (resized s), (create_ok be), (pending s),
    (update_ok be), (drawable s), (draw_ok be), (present_ok be); cbn;
    repeat split; intros; try discriminate; try reflexivity;
    try congruence; intuition discriminate.
Qed.

(** X2: every tick starts with the clear.  One that reports
    [SDL_APP_CONTINUE] ends with the present and logs nothing; one that
    reports [SDL_APP_FAILURE] logs once, and the log is the last thing it
    does: no SDL call follows a failed one.  A tick uploads at most once
    and draws at most once. *)
Theorem tick_trace_shape (be : backend) (s : app) :
  let '(r, s', t) := SDL_AppIterate be s in
  hd_error t = Some RenderClear
  /\ (r = SDL_APP_CONTINUE ->
      last t Log = RenderPresent /\ filter is_log t = [])
  /\ (r = SDL_APP_FAILURE ->
      last t RenderClear = Log /\ filter is_log t = [Log])
  /\ (List.length (uploads t) <= 1)%nat
  /\ (List.length (filter is_draw t) <= 1)%nat.
Proof.
  destruct s as [[tx d l wd ht vr nw] mW mH o sr].
  destruct be as [c u dr cl p].
  tick_unfold.
  destruct (l =? 0) eqn:Hl; destruct (mW =? wd) eqn:HW; destruct (mH =? ht) eqn:HH;
    destruct cl; destruct tx as [old |]; destruct c; destruct nw;
    destruct u; destruct dr; destruct p;
    tick_cases Hl HW HH;
    repeat split; intros; try discriminate; auto.
Qed.

(** X3: the texture is never resized in place and never recreated for a
    frame of the cached size.  When the frame size differs from the
    cached one, the texture held (if any) is destroyed and then one
    creation is asked for, with the frame size, and its result is what
    the image holds afterwards; otherwise no texture is created or
    destroyed and texture, cache and ratio are as before.  After an
    update that returns true the cache is the frame size. *)
Theorem texture_recreated_on_resize (be : backend) (s : app) :
  let '(ok, s', t) := cImage_TextureUpdate be s in
  texture_calls t
  = (if resized s
     then destroy_old (texture (image s))
          ++ [CreateTexture (width (image s)) (height (image s))]
     else [])
  /\ texture (image s')
     = (if resized s
        then SDL_CreateTexture be (width (image s)) (height (image s))
        else texture (image s))
  /\ (resized s = false ->
      mWidth s' = mWidth s /\ mHeight s' = mHeight s
      /\ videoRatio (image s') = videoRatio (image s))
  /\ (ok = true ->
      mWidth s' = width (image s) /\ mHeight s' = height (image s)).
Proof.
  destruct s as [[tx d l wd ht vr nw] mW mH o sr].
  destruct be as [c u dr cl p].
  tick_unfold.
  destruct (l =? 0) eqn:Hl; destruct (mW =? wd) eqn:HW; destruct (mH =? ht) eqn:HH;
    destruct tx as [old |]; destruct c; destruct nw; destruct u;
    tick_cases Hl HW HH;
    try (apply Z.eqb_eq in HW); try (apply Z.eqb_eq in HH);
    repeat split; intros; try discriminate; auto.
Qed.

(** X4: after a tick that reported [SDL_APP_CONTINUE], a further tick
    with no frame submitted in between changes nothing, whatever its
    backend answers: it uploads nothing, creates and destroys no texture,
    and reports [SDL_APP_CONTINUE] exactly when its clear, its draw (if a
    texture is held) and its present succeed. *)
Theorem tick_after_tick (be be' : backend) (s : app) :
  fst (fst (SDL_AppIterate be s)) = SDL_APP_CONTINUE ->
  let s1 := snd (fst (SDL_AppIterate be s)) in
  let '(r, s2, t) := SDL_AppIterate be' s1 in
  s2 = s1 /\ uploads t = [] /\ texture_calls t = []
  /\ (r = SDL_APP_CONTINUE <->
      clear_ok be' = true
      /\ (texture (image s1) <> None -> draw_ok be' = true)
      /\ present_ok be' = true).
Proof.
  destruct (SDL_AppIterate be s) as [[r s1] t1] eqn:Hfirst. cbn [fst snd].
  intros ->.
  destruct (SDL_AppIterate_continue_state be s s1 t1 Hfirst)
    as (_ & _ & Hres & Hpen & _).
  pose proof (SDL_AppIterate_synced be' s1 Hres Hpen) as Hsync.
  destruct (SDL_AppIterate be' s1) as [[r2 s2] t2].
  destruct Hsync as (-> & Hup & Htex & ->).
  repeat split; try assumption.
  - destruct (clear_ok be'); [reflexivity | discriminate].
  - intros Hheld. destruct (clear_ok be'); [| discriminate].
    destruct (texture (image s1)); [| congruence].
    destruct (draw_ok be'); [reflexivity | discriminate H].
  - destruct (clear_ok be'); [| discriminate].
    destruct (texture (image s1)); destruct (draw_ok be');
      destruct (present_ok be'); cbn in *; congruence.
  - intros (-> & Hd & ->).
    destruct (texture (image s1)); [| reflexivity].
    rewrite Hd by discriminate. reflexivity.
Qed.

Lemma tick_after_tick_witness :
  fst (fst (SDL_AppIterate all_ok (set_image image_100 booted)))
  = SDL_APP_CONTINUE
  /\ let s1 := snd (fst (SDL_AppIterate all_ok (set_image image_100 booted))) in
     let '(r, s2, t) := SDL_AppIterate all_ok s1 in
     s2 = s1 /\ uploads t = [] /\ texture_calls t = []
     /\ (r = SDL_APP_CONTINUE <->
         clear_ok all_ok = true
         /\ (texture (image s1) <> None -> draw_ok all_ok = true)
         /\ present_ok all_ok = true).
Proof.
  split; [reflexivity |].
  exact (tick_after_tick all_ok all_ok (set_image image_100 booted) eq_refl).
Defined.

(** X5: what a tick draws.  A tick that reports [SDL_APP_CONTINUE] draws
    the texture the image holds after the update, once, turned by
    [mOrientation] into the rectangle computed from [screenRect],
    [mOrientation] and the ratio as it is after the update; it draws
    nothing if no texture is held.  So a frame of a new size is laid out
    with its own ratio, width over height, in the very tick that creates
    its texture. *)
Theorem draw_uses_updated_texture (be : backend) (s : app) :
  let '(r, s', t) := SDL_AppIterate be s in
  r = SDL_APP_CONTINUE ->
  filter is_draw t
  = match texture (image s') with
    | Some tx =>
        [RenderTextureRotated tx
           (calculateRect (screenRect s) (mOrientation s)
              (videoRatio (image s')))
           (mOrientation s)]
    | None => []
    end
  /\ (resized s = true ->
      videoRatio (image s')
      = fdiv (of_int (width (image s))) (of_int (height (image s)))).
Proof.
  destruct s as [[tx d l wd ht vr nw] mW mH o sr].
  destruct be as [c u dr cl p].
  tick_unfold.
  destruct (l =? 0) eqn:Hl; destruct (mW =? wd) eqn:HW; destruct (mH =? ht) eqn:HH;
    destruct cl; destruct tx as [old |]; destruct c; destruct nw;
    destruct u; destruct dr; destruct p;
    tick_cases Hl HW HH;
    intros; try discriminate; split; intros; try discriminate; reflexivity.
Qed.

(** ** Submission under any allocator *)

Lemma copy_and_mark_cases (im : cImage) (f : frame) :
  match data im with
  | None =>
      match yuv_data f with
      | [] => copy_and_mark im f
              = Returns (set_height (fheight f) (set_width (fwidth f)
                          (set_new true (set_data None im)))) []
      | _ :: _ => copy_and_mark im f = NullWrite
      end
  | Some block =>
      if (List.length (yuv_data f) <=? List.length block)%nat
      then copy_and_mark im f
           = Returns (set_height (fheight f) (set_width (fwidth f)
                       (set_new true
                          (set_data (Some (yuv_data f
                                           ++ skipn (List.length (yuv_data f)) block))
                                    im)))) []
      else copy_and_mark im f = Overflow
  end.
Proof.
  unfold copy_and_mark, GetByteArrayRegion.
  destruct (data im) as [block |].
  - destruct (List.length (yuv_data f) <=? List.length block)%nat; reflexivity.
  - destruct (yuv_data f); reflexivity.
Qed.

Lemma fresh_block_length (f : frame) :
  List.length (repeat x00 (Z.to_nat (GetArrayLength (yuv_data f))))
  = List.length (yuv_data f).
Proof. unfold GetArrayLength. rewrite repeat_length. apply Nat2Z.id. Qed.

(** A submission keeps the block in step with [length], whatever the
    allocator answers, and never writes past the end of the block. *)
Lemma processYUVImage_fits (ok : bool) (me : cImage) (f : frame) :
  fits me ->
  processYUVImage ok me f <> Overflow
  /\ forall me' tr, processYUVImage ok me f = Returns me' tr -> fits me'.
Proof.
  intros [Hpos Hblock]. unfold processYUVImage.
  destruct (Z.gtb_spec (GetArrayLength (yuv_data f)) (length me)) as [Hgt | Hle].
  - destruct ok.
    + pose proof (copy_and_mark_cases
                    (set_data (Some (repeat x00 (Z.to_nat (GetArrayLength (yuv_data f)))))
                       (set_data None (set_length (GetArrayLength (yuv_data f)) me))) f)
        as Hc.
      cbn [data set_data] in Hc. rewrite fresh_block_length, Nat.leb_refl in Hc.
      rewrite Hc. split; [discriminate |].
      intros me' tr [= <- _]. split; cbn; [lia |].
      intros block [= <-].
      rewrite length_app, length_skipn, fresh_block_length.
      unfold GetArrayLength. lia.
    + split; [discriminate |].
      intros me' tr [= <- _]. split; cbn; [lia | discriminate].
  - pose proof (copy_and_mark_cases me f) as Hc.
    destruct (data me) as [block |] eqn:Hd.
    + specialize (Hblock block eq_refl). unfold GetArrayLength in Hle.
      destruct (Nat.leb_spec (List.length (yuv_data f)) (List.length block));
        [| lia].
      rewrite Hc. split; [discriminate |].
      intros me' tr [= <- _]. split; cbn; [lia |].
      intros block' [= <-]. rewrite patched_length by assumption. assumption.
    + destruct (yuv_data f); rewrite Hc; split; try discriminate.
      intros me' tr [= <- _]. split; cbn; [lia | discriminate].
Qed.

(** When the copy goes through a null pointer. *)
Lemma processYUVImage_null_write (ok : bool) (me : cImage) (f : frame) :
  data me = None ->
  yuv_data f <> [] ->
  GetArrayLength (yuv_data f) <= length me ->
  processYUVImage ok me f = NullWrite.
Proof.
  intros Hnull Hne Hle. unfold processYUVImage.
  destruct (Z.gtb_spec (GetArrayLength (yuv_data f)) (length me)); [lia |].
  unfold copy_and_mark, GetByteArrayRegion. rewrite Hnull.
  destruct (yuv_data f); [contradiction | reflexivity].
Qed.

(** X6: the copy of a frame goes through a null pointer exactly when
    [data] is null, the frame is not empty and it is not larger than
    [length] (so that no block is allocated for it). *)
Theorem null_write_iff (ok : bool) (me : cImage) (f : frame) :
  processYUVImage ok me f = NullWrite <->
  data me = None /\ yuv_data f <> []
  /\ GetArrayLength (yuv_data f) <= length me.
Proof.
  unfold processYUVImage.
  destruct (Z.gtb_spec (GetArrayLength (yuv_data f)) (length me)) as [Hgt | Hle].
  - split; [| intros (_ & _ & Hle); lia].
    destruct ok; [| discriminate].
    pose proof (copy_and_mark_cases
                  (set_data (Some (repeat x00 (Z.to_nat (GetArrayLength (yuv_data f)))))
                     (set_data None (set_length (GetArrayLength (yuv_data f)) me))) f)
      as Hc.
    cbn [data set_data] in Hc. rewrite fresh_block_length, Nat.leb_refl in Hc.
    rewrite Hc. discriminate.
  - pose proof (copy_and_mark_cases me f) as Hc.
    destruct (data me) as [block |].
    + destruct (List.length (yuv_data f) <=? List.length block)%nat;
        rewrite Hc; split; try discriminate; intros (Hn & _); discriminate.
    + destruct (yuv_data f) as [| b src]; rewrite Hc.
      * split; [discriminate | intros (_ & Hne & _); contradiction].
      * split; [| reflexivity].
        intros _. repeat split; [discriminate | assumption].
Qed.

(** X7: what a refused growth leaves behind.  Any later frame that is
    not empty and not larger than the refused one is copied through the
    null pointer, whatever its own allocation would answer; an empty
    frame is accepted and marks the image new although no block exists;
    a strictly larger frame whose allocation succeeds brings the image
    back to a block of the recorded size. *)
Theorem refused_growth_aftermath (me : cImage) (f : frame) :
  0 <= length me ->
  GetArrayLength (yuv_data f) > length me ->
  exists me',
    processYUVImage false me f = Returns me' [Log]
    /\ (forall ok g,
          yuv_data g <> [] ->
          GetArrayLength (yuv_data g) <= GetArrayLength (yuv_data f) ->
          processYUVImage ok me' g = NullWrite)
    /\ (forall ok g,
          yuv_data g = [] ->
          exists me'', processYUVImage ok me' g = Returns me'' []
                       /\ new me'' = true /\ data me'' = None)
    /\ (forall g,
          GetArrayLength (yuv_data g) > GetArrayLength (yuv_data f) ->
          exists me'', processYUVImage true me' g = Returns me'' []
                       /\ sized me'' /\ stored me'' = yuv_data g).
Proof.
  intros Hpos Hgt.
  destruct (processYUVImage_refused me f Hgt)
    as (me' & Hrun & _ & _ & _ & Hlen & _ & Hnull).
  exists me'. split; [assumption |]. repeat split.
  - intros ok g Hne Hle. apply processYUVImage_null_write; try assumption. lia.
  - intros ok g Hempty. unfold processYUVImage. rewrite Hempty.
    destruct (Z.gtb_spec (GetArrayLength []) (length me')) as [H0 | _];
      [cbn in H0; lia |].
    unfold copy_and_mark, GetByteArrayRegion. rewrite Hnull, Hempty.
    eexists. split; [reflexivity |]. cbn. split; reflexivity.
  - intros g Hbig. unfold processYUVImage.
    destruct (Z.gtb_spec (GetArrayLength (yuv_data g)) (length me')); [| lia].
    pose proof (copy_and_mark_cases
                  (set_data (Some (repeat x00 (Z.to_nat (GetArrayLength (yuv_data g)))))
                     (set_data None (set_length (GetArrayLength (yuv_data g)) me'))) g)
      as Hc.
    cbn [data set_data] in Hc. rewrite fresh_block_length, Nat.leb_refl in Hc.
    rewrite Hc. eexists. split; [reflexivity |].
    unfold sized, capacity, stored. cbn.
    rewrite skipn_all2 by (rewrite fresh_block_length; lia).
    rewrite app_nil_r. split; reflexivity.
Qed.

Lemma refused_growth_aftermath_witness :
  0 <= length cImage_zero
  /\ GetArrayLength (yuv_data frame_100) > length cImage_zero
  /\ exists me',
       processYUVImage false cImage_zero frame_100 = Returns me' [Log]
       /\ (forall ok g,
             yuv_data g <> [] ->
             GetArrayLength (yuv_data g) <= GetArrayLength (yuv_data frame_100) ->
             processYUVImage ok me' g = NullWrite)
       /\ (forall ok g,
             yuv_data g = [] ->
             exists me'', processYUVImage ok me' g = Returns me'' []
                          /\ new me'' = true /\ data me'' = None)
       /\ (forall g,
             GetArrayLength (yuv_data g) > GetArrayLength (yuv_data frame_100) ->
             exists me'', processYUVImage true me' g = Returns me'' []
                          /\ sized me'' /\ stored me'' = yuv_data g).
Proof.
  split; [discriminate |]. split; [reflexivity |].
  refine (refused_growth_aftermath cImage_zero frame_100 _ eq_refl).
  discriminate.
Defined.

(** X8: the block after a submission whose allocation, if any, succeeds.
    A frame larger than [length] gets a block of exactly its size, which
    then holds the frame and nothing else; any other frame overwrites the
    start of the block and leaves the rest of it, the end of an earlier
    and larger frame, as it was. *)
Theorem block_after_submission (me : cImage) (f : frame) :
  sized me ->
  exists me',
    processYUVImage true me f = Returns me' []
    /\ stored me'
       = (if GetArrayLength (yuv_data f) >? length me
          then yuv_data f
          else yuv_data f ++ skipn (List.length (yuv_data f)) (stored me)).
Proof.
  intros Hs. unfold sized in Hs. rewrite capacity_stored in Hs.
  unfold processYUVImage.
  destruct (Z.gtb_spec (GetArrayLength (yuv_data f)) (length me)) as [Hgt | Hle].
  - pose proof (copy_and_mark_cases
                  (set_data (Some (repeat x00 (Z.to_nat (GetArrayLength (yuv_data f)))))
                     (set_data None (set_length (GetArrayLength (yuv_data f)) me))) f)
      as Hc.
    cbn [data set_data] in Hc. rewrite fresh_block_length, Nat.leb_refl in Hc.
    rewrite Hc. eexists. split; [reflexivity |].
    unfold stored. cbn.
    rewrite skipn_all2 by (rewrite fresh_block_length; lia).
    apply app_nil_r.
  - pose proof (copy_and_mark_cases me f) as Hc. unfold stored in *.
    unfold GetArrayLength in Hle.
    destruct (data me) as [block |].
    + destruct (Nat.leb_spec (List.length (yuv_data f)) (List.length block));
        [| lia].
      rewrite Hc. eexists. split; reflexivity.
    + cbn in Hs. destruct (yuv_data f) as [| b src]; [| cbn in Hle; lia].
      rewrite Hc. eexists. split; reflexivity.
Qed.

Lemma block_after_submission_witness :
  sized image_100
  /\ exists me',
       processYUVImage true image_100 frame_50 = Returns me' []
       /\ stored me'
          = (if GetArrayLength (yuv_data frame_50) >? length image_100
             then yuv_data frame_50
             else yuv_data frame_50
                  ++ skipn (List.length (yuv_data frame_50)) (stored image_100)).
Proof.
  split; [reflexivity |].
  exact (block_after_submission image_100 frame_50 eq_refl).
Defined.

(** X9: submitting the same frame again changes nothing: once a frame
    has been submitted with its allocation granted, a second submission
    of it returns the very same image without allocating, whatever the
    allocator would answer. *)
Theorem resubmission_is_idempotent (ok : bool) (me : cImage) (f : frame) :
  sized me ->
  exists me',
    processYUVImage true me f = Returns me' []
    /\ processYUVImage ok me' f = Returns me' [].
Proof.
  intros Hs.
  destruct (processYUVImage_granted me f Hs)
    as (me' & Hrun & Hs' & Hlen & Hw & Hh & Hn & _ & _ & Hpre & _).
  exists me'. split; [assumption |].
  unfold sized in Hs'. rewrite capacity_stored in Hs'.
  unfold processYUVImage.
  destruct (Z.gtb_spec (GetArrayLength (yuv_data f)) (length me')); [lia |].
  pose proof (copy_and_mark_cases me' f) as Hc. unfold stored in *.
  destruct me' as [tx d l wd ht vr nw]. cbn in *. subst wd ht nw.
  destruct d as [block |].
  - assert (Hfit : (List.length (yuv_data f) <= List.length block)%nat).
    { unfold GetArrayLength in Hlen. lia. }
    destruct (Nat.leb_spec (List.length (yuv_data f)) (List.length block));
      [| lia].
    rewrite Hc. unfold set_height, set_width, set_new, set_data. cbn.
    pose proof (firstn_skipn (List.length (yuv_data f)) block) as Hfs.
    rewrite Hpre in Hfs. rewrite Hfs. reflexivity.
  - assert (Hempty : yuv_data f = []).
    { unfold GetArrayLength in Hlen. cbn in Hs'.
      destruct (yuv_data f); [reflexivity | cbn in Hlen; lia]. }
    rewrite Hempty in Hc. rewrite Hc. reflexivity.
Qed.

Lemma resubmission_is_idempotent_witness :
  sized cImage_zero
  /\ exists me',
       processYUVImage true cImage_zero frame_100 = Returns me' []
       /\ processYUVImage false me' frame_100 = Returns me' [].
Proof.
  split; [reflexivity |].
  exact (resubmission_is_idempotent false cImage_zero frame_100 eq_refl).
Defined.

(** A submission that returns leaves the texture and the ratio alone. *)
Lemma processYUVImage_keeps_presenter (ok : bool) (me me' : cImage)
    (f : frame) (tr : list event) :
  processYUVImage ok me f = Returns me' tr ->
  texture me' = texture me /\ videoRatio me' = videoRatio me.
Proof.
  unfold processYUVImage, copy_and_mark.
  destruct (GetArrayLength (yuv_data f) >? length me).
  - destruct ok.
    + destruct (GetByteArrayRegion _ _); try discriminate.
      intros [= <- _]. split; reflexivity.
    + intros [= <- _]. split; reflexivity.
  - destruct (GetByteArrayRegion _ _); try discriminate.
    intros [= <- _]. split; reflexivity.
Qed.

(** X10: the analyzer thread never touches what belongs to the render
    thread: through any run of submissions that returns, with any
    outcomes of the allocations, the texture handle and the ratio are
    what they were, and only [Log] entries are traced (no SDL rendering
    call is made). *)
Theorem submissions_keep_presenter (subs : list (bool * frame)) :
  forall me me' tr,
    submit_all subs me = Returns me' tr ->
    texture me' = texture me /\ videoRatio me' = videoRatio me
    /\ Forall (fun e => e = Log) tr.
Proof.
  induction subs as [| [ok f] subs IH]; intros me me' tr; cbn [submit_all].
  - intros [= <- <-]. repeat split. constructor.
  - destruct (processYUVImage ok me f) as [me1 tr1 | |] eqn:Hone;
      try discriminate.
    destruct (submit_all subs me1) as [me2 tr2 | |] eqn:Hrest; try discriminate.
    intros [= <- <-].
    destruct (processYUVImage_keeps_presenter ok me me1 f tr1 Hone) as [Ht Hv].
    destruct (IH me1 me2 tr2 Hrest) as (Ht2 & Hv2 & Hlog).
    repeat split; try congruence.
    apply Forall_app. split; [| assumption].
    unfold processYUVImage, copy_and_mark in Hone.
    destruct (GetArrayLength (yuv_data f) >? length me), ok;
      try destruct (GetByteArrayRegion _ _); try discriminate;
      injection Hone as _ <-; repeat constructor.
Qed.

Lemma submissions_keep_presenter_witness :
  submit_all [(true, frame_100)] cImage_zero = Returns image_100 []
  /\ texture image_100 = texture cImage_zero
  /\ videoRatio image_100 = videoRatio cImage_zero
  /\ Forall (fun e => e = Log) [].
Proof.
  split; [reflexivity |].
  exact (submissions_keep_presenter [(true, frame_100)] cImage_zero image_100 []
           eq_refl).
Defined.

(** ** Start-up and events *)

(** X11: start-up reports [SDL_APP_CONTINUE] exactly when the permission
    request, [SDL_Init], the window, the allocation of the image and its
    mutex, the display lookup and the output size query all succeed; it
    then leaves a zeroed image, a zero cached texture size, the angle of
    the orientation table and the whole output as display rectangle, at
    the origin.  In every other case it reports [SDL_APP_FAILURE]. *)
Theorem startup_succeeds_iff (b : boot) :
  (forall s,
     SDL_AppInit b = (SDL_APP_CONTINUE, Some s) <->
     permission_requested b = true /\ sdl_initialized b = true
     /\ window_created b = true /\ image_allocated b = true
     /\ mutex_created b = true
     /\ windowDisplayID (boot_display b) <> 0
     /\ exists W H,
          renderOutputSize (boot_display b) = Some (W, H)
          /\ s = {| image := cImage_zero; mWidth := 0; mHeight := 0;
                    mOrientation :=
                      orientation_angle (currOrientation (boot_display b));
                    screenRect := screen W H |})
  /\ ((forall s, SDL_AppInit b <> (SDL_APP_CONTINUE, Some s)) ->
      SDL_AppInit b = (SDL_APP_FAILURE, None)).
Proof.
  unfold SDL_AppInit, getOrientation, getScreenRect.
  destruct (permission_requested b), (sdl_initialized b), (window_created b),
    (image_allocated b), (mutex_created b); cbn [andb];
    try (split; [intros s; split; [discriminate | intros H; decompose [and] H; discriminate]
                | reflexivity]).
  destruct (Z.eqb_spec (windowDisplayID (boot_display b)) 0) as [Hd | Hd].
  - destruct (renderOutputSize (boot_display b)) as [[W H] |]; cbn.
    + split; [| reflexivity].
      intros s; split; [discriminate | intros Hs; decompose [and] Hs; contradiction].
    + split; [| reflexivity].
      intros s; split; [discriminate | intros Hs; decompose [and] Hs; contradiction].
  - destruct (renderOutputSize (boot_display b)) as [[W H] |]; cbn.
    + split.
      * intros s. split.
        -- intros [= <-]. repeat split; try assumption.
           exists W, H. split; reflexivity.
        -- intros (_ & _ & _ & _ & _ & _ & W' & H' & [= <- <-] & ->).
           reflexivity.
      * intros Hnever. exfalso. eapply Hnever. reflexivity.
    + split; [| reflexivity].
      intros s; split; [discriminate |].
      intros (_ & _ & _ & _ & _ & _ & W' & H' & Hsome & _). discriminate.
Qed.

(** X12: events.  No event touches the image or the cached texture size.
    A quit event reports [SDL_APP_SUCCESS] and any event other than a
    resize reports [SDL_APP_CONTINUE], both without changing anything.  A
    resize reports [SDL_APP_CONTINUE] exactly when the display is found
    and the output size is known, and then stores the angle of the table
    and the new output as display rectangle; when the display is not
    found nothing is changed; when only the size query fails the new
    angle has already been stored and the old rectangle is kept. *)
Theorem event_behaviour (d : display) (type : SDL_EventType) (s : app) :
  let '(r, s') := SDL_AppEvent d type s in
  image s' = image s /\ mWidth s' = mWidth s /\ mHeight s' = mHeight s
  /\ (type = SDL_EVENT_QUIT -> r = SDL_APP_SUCCESS /\ s' = s)
  /\ (type = SDL_EVENT_OTHER -> r = SDL_APP_CONTINUE /\ s' = s)
  /\ (type = SDL_EVENT_WINDOW_RESIZED ->
      (r = SDL_APP_CONTINUE <->
       windowDisplayID d <> 0 /\ renderOutputSize d <> None)
      /\ (r <> SDL_APP_CONTINUE -> r = SDL_APP_FAILURE)
      /\ (windowDisplayID d = 0 -> s' = s)
      /\ (windowDisplayID d <> 0 ->
          mOrientation s' = orientation_angle (currOrientation d)
          /\ screenRect s'
             = match renderOutputSize d with
               | Some (W, H) => screen W H
               | None => screenRect s
               end)).
Proof.
  unfold SDL_AppEvent, getOrientation, getScreenRect.
  destruct s as [me mW mH o sr].
  destruct type;
    destruct (Z.eqb_spec (windowDisplayID d) 0) as [Hd | Hd];
    destruct (renderOutputSize d) as [[W H] |]; cbn;
    repeat split; intros; try discriminate; try reflexivity;
    try contradiction; intuition congruence.
Qed.

(** ** Invariants of a run *)

(** An invariant of the submissions, ticks and events that satisfy [Q] is
    an invariant of every run of such turns. *)
Lemma lifetime_invariant_when (Q : action -> Prop) (P : app -> Prop) :
  (forall ok f s me tr,
     Q (Frame ok f) -> P s ->
     processYUVImage ok (image s) f = Returns me tr ->
     P (set_image me s)) ->
  (forall be s s' t,
     P s -> SDL_AppIterate be s = (SDL_APP_CONTINUE, s', t) -> P s') ->
  (forall d type s s',
     P s -> SDL_AppEvent d type s = (SDL_APP_CONTINUE, s') -> P s') ->
  forall acts s s',
    Forall Q acts -> P s -> lifetime acts s = Some s' -> P s'.
Proof.
  intros Hframe Htick Hevent.
  induction acts as [| [ok f | be | d type] acts IH]; intros s s' HQ HP;
    cbn [lifetime].
  - intros [= <-]. assumption.
  - inversion HQ as [| ? ? Hhead Htail]; subst.
    destruct (processYUVImage ok (image s) f) as [me tr | |] eqn:Hrun;
      try discriminate.
    apply IH; [assumption |]. eapply Hframe; eassumption.
  - inversion HQ as [| ? ? Hhead Htail]; subst.
    destruct (SDL_AppIterate be s) as [[[| |] s1] t] eqn:Hrun; try discriminate.
    apply IH; [assumption |]. eapply Htick; eassumption.
  - inversion HQ as [| ? ? Hhead Htail]; subst.
    destruct (SDL_AppEvent d type s) as [[| |] s1] eqn:Hrun; try discriminate.
    apply IH; [assumption |]. eapply Hevent; eassumption.
Qed.

Lemma lifetime_invariant (P : app -> Prop) :
  (forall ok f s me tr,
     P s -> processYUVImage ok (image s) f = Returns me tr ->
     P (set_image me s)) ->
  (forall be s s' t,
     P s -> SDL_AppIterate be s = (SDL_APP_CONTINUE, s', t) -> P s') ->
  (forall d type s s',
     P s -> SDL_AppEvent d type s = (SDL_APP_CONTINUE, s') -> P s') ->
  forall acts s s', P s -> lifetime acts s = Some s' -> P s'.
Proof.
  intros Hframe Htick Hevent acts s s'.
  assert (Hall : Forall (fun _ : action => True) acts).
  { induction acts; constructor; [exact I | assumption]. }
  apply (lifetime_invariant_when (fun _ => True) P); try assumption.
  intros ok f s1 me tr _ HP Hone. eapply Hframe; eassumption.
Qed.

Lemma SDL_AppEvent_keeps_image (d : display) (type : SDL_EventType) (s : app) :
  image (snd (SDL_AppEvent d type s)) = image s
  /\ mWidth (snd (SDL_AppEvent d type s)) = mWidth s
  /\ mHeight (snd (SDL_AppEvent d type s)) = mHeight s.
Proof.
  unfold SDL_AppEvent, getOrientation, getScreenRect.
  destruct type; cbn; repeat split;
    destruct (windowDisplayID d =? 0); cbn; try reflexivity;
    destruct (renderOutputSize d) as [[W H] |]; reflexivity.
Qed.

Lemma SDL_AppInit_boot (b : boot) (s : app) :
  SDL_AppInit b = (SDL_APP_CONTINUE, Some s) ->
  image s = cImage_zero /\ mWidth s = 0 /\ mHeight s = 0
  /\ In (mOrientation s) [0; 90; 180; 270]
  /\ exists W H, screenRect s = screen W H.
Proof.
  unfold SDL_AppInit, getOrientation, getScreenRect.
  destruct (permission_requested b && sdl_initialized b && window_created b
            && image_allocated b && mutex_created b); [| discriminate].
  destruct (windowDisplayID (boot_display b) =? 0);
    destruct (renderOutputSize (boot_display b)) as [[W H] |];
    try discriminate.
  intros [= <-]. cbn. repeat split.
  - destruct (currOrientation (boot_display b)); cbn; auto.
  - exists W, H. reflexivity.
Qed.

(** X13: memory safety of the copy.  In every state a run reaches from
    start-up, whatever the allocator, the backend and the display answer
    along the way, a block, when there is one, has exactly [length]
    bytes, and no submission writes past its end. *)
Theorem copy_never_overflows (b : boot) (s0 s : app) (acts : list action) :
  SDL_AppInit b = (SDL_APP_CONTINUE, Some s0) ->
  lifetime acts s0 = Some s ->
  fits (image s)
  /\ forall ok f, processYUVImage ok (image s) f <> Overflow.
Proof.
  intros Hinit Hrun.
  assert (Hfits : fits (image s)).
  { apply (lifetime_invariant (fun s => fits (image s)))
      with (acts := acts) (s := s0); [| | | | exact Hrun].
    - intros ok f s1 me tr Hf Hone. cbn.
      eapply (proj2 (processYUVImage_fits ok (image s1) f Hf)). eassumption.
    - intros be s1 s2 t Hf Hone.
      pose proof (SDL_AppIterate_cases be s1) as Hc. rewrite Hone in Hc.
      destruct Hc as (_ & _ & _ & Hd & Hl & _).
      unfold fits in *. rewrite Hd, Hl. assumption.
    - intros d type s1 s2 Hf Hone.
      pose proof (SDL_AppEvent_keeps_image d type s1) as (Hi & _).
      rewrite Hone in Hi. cbn in Hi. rewrite Hi. assumption.
    - destruct (SDL_AppInit_boot b s0 Hinit) as (Hi & _). rewrite Hi.
      split; [cbn; lia | discriminate]. }
  split; [assumption |].
  intros ok f. apply processYUVImage_fits. assumption.
Qed.

Lemma copy_never_overflows_witness :
  SDL_AppInit portrait_phone = (SDL_APP_CONTINUE, Some booted)
  /\ lifetime [Frame true frame_100; Iterate all_ok] booted
     = Some shown_100
  /\ fits (image shown_100)
  /\ forall ok f,
       processYUVImage ok
         (image shown_100)
         f <> Overflow.
Proof.
  split; [reflexivity |]. split; [reflexivity |].
  exact (copy_never_overflows portrait_phone booted shown_100
           [Frame true frame_100; Iterate all_ok] eq_refl eq_refl).
Defined.

(** X14: the presenter's invariant.  In every state a run reaches from
    start-up, the texture held, if any, was created with the cached size
    [mWidth] by [mHeight], and the ratio used for the layout is
    [(float)mWidth / (float)mHeight]; as long as no texture is held, the
    cached size and the ratio are still zero. *)
Theorem texture_matches_cache (b : boot) (s0 s : app) (acts : list action) :
  SDL_AppInit b = (SDL_APP_CONTINUE, Some s0) ->
  lifetime acts s0 = Some s ->
  match texture (image s) with
  | Some t =>
      tex_w t = mWidth s /\ tex_h t = mHeight s
      /\ videoRatio (image s) = fdiv (of_int (mWidth s)) (of_int (mHeight s))
  | None =>
      mWidth s = 0 /\ mHeight s = 0 /\ videoRatio (image s) = S754_zero false
  end.
Proof.
  intros Hinit Hrun. change (presented s).
  apply (lifetime_invariant presented) with (acts := acts) (s := s0);
    [| | | | exact Hrun].
  - intros ok f s1 me tr HP Hone.
    destruct (processYUVImage_keeps_presenter ok (image s1) me f tr Hone)
      as [Ht Hv].
    unfold presented in *. cbn. rewrite Ht, Hv. assumption.
  - intros be s1 s2 t HP Hone.
    apply (SDL_AppIterate_continue_state be s1 s2 t Hone). assumption.
  - intros d type s1 s2 HP Hone.
    pose proof (SDL_AppEvent_keeps_image d type s1) as (Hi & HW & HH).
    rewrite Hone in Hi, HW, HH. cbn in Hi, HW, HH.
    unfold presented in *. rewrite Hi, HW, HH. assumption.
  - destruct (SDL_AppInit_boot b s0 Hinit) as (Hi & HW & HH & _).
    unfold presented. rewrite Hi, HW, HH. cbn. repeat split.
Qed.

Lemma texture_matches_cache_witness :
  SDL_AppInit portrait_phone = (SDL_APP_CONTINUE, Some booted)
  /\ lifetime [Frame true frame_100; Iterate all_ok] booted
     = Some shown_100
  /\ let s := shown_100 in
     match texture (image s) with
     | Some t =>
         tex_w t = mWidth s /\ tex_h t = mHeight s
         /\ videoRatio (image s)
            = fdiv (of_int (mWidth s)) (of_int (mHeight s))
     | None =>
         mWidth s = 0 /\ mHeight s = 0
         /\ videoRatio (image s) = S754_zero false
     end.
Proof.
  split; [reflexivity |]. split; [reflexivity |].
  exact (texture_matches_cache portrait_phone booted shown_100
           [Frame true frame_100; Iterate all_ok] eq_refl eq_refl).
Defined.

(** X15: in every state a run reaches from start-up, the angle handed to
    the layout and to the draw call is one of 0, 90, 180 and 270, and the
    display rectangle is a whole render output with its origin at
    (0, 0): only start-up and resize events write them, and both go
    through the orientation table and the output size query. *)
Theorem orientation_stays_in_table (b : boot) (s0 s : app)
    (acts : list action) :
  SDL_AppInit b = (SDL_APP_CONTINUE, Some s0) ->
  lifetime acts s0 = Some s ->
  In (mOrientation s) [0; 90; 180; 270]
  /\ exists W H, screenRect s = screen W H.
Proof.
  intros Hinit Hrun. change (oriented s).
  apply (lifetime_invariant oriented) with (acts := acts) (s := s0);
    [| | | | exact Hrun].
  - intros ok f s1 me tr HP _. exact HP.
  - intros be s1 s2 t HP Hone.
    pose proof (SDL_AppIterate_cases be s1) as Hc. rewrite Hone in Hc.
    destruct Hc as (_ & Ho & Hr & _).
    unfold oriented in *. rewrite Ho, Hr. assumption.
  - intros d type s1 s2 HP.
    unfold SDL_AppEvent, getOrientation, getScreenRect.
    destruct type; try (intros [= <-]; assumption); try discriminate.
    destruct (windowDisplayID d =? 0); [discriminate |].
    destruct (renderOutputSize d) as [[W H] |]; [| discriminate].
    intros [= <-]. split; cbn.
    + destruct (currOrientation d); cbn; auto.
    + exists W, H. reflexivity.
  - destruct (SDL_AppInit_boot b s0 Hinit) as (_ & _ & _ & Ho & Hr).
    split; assumption.
Qed.

Lemma orientation_stays_in_table_witness :
  SDL_AppInit portrait_phone = (SDL_APP_CONTINUE, Some booted)
  /\ lifetime [Event (boot_display portrait_phone) SDL_EVENT_WINDOW_RESIZED]
       booted = Some booted
  /\ In (mOrientation booted) [0; 90; 180; 270]
  /\ exists W H, screenRect booted = screen W H.
Proof.
  split; [reflexivity |]. split; [reflexivity |].
  exact (orientation_stays_in_table portrait_phone booted booted
           [Event (boot_display portrait_phone) SDL_EVENT_WINDOW_RESIZED]
           eq_refl eq_refl).
Defined.

(** X16: a process whose allocations all succeed never stops in a
    submission.  In every state a run reaches from start-up with every
    allocation granted, the block has the recorded size, and a further
    frame whose allocation, if any, succeeds is accepted without a log:
    the image is marked new, carries the frame's width and height and
    starts with its bytes. *)
Theorem granted_run_accepts_frames (b : boot) (s0 s : app)
    (acts : list action) (f : frame) :
  SDL_AppInit b = (SDL_APP_CONTINUE, Some s0) ->
  Forall turn_granted acts ->
  lifetime acts s0 = Some s ->
  sized (image s)
  /\ exists me,
       processYUVImage true (image s) f = Returns me []
       /\ new me = true /\ width me = fwidth f /\ height me = fheight f
       /\ firstn (List.length (yuv_data f)) (stored me) = yuv_data f.
Proof.
  intros Hinit Hall Hrun.
  assert (Hs : sized (image s)).
  { apply (lifetime_invariant_when turn_granted (fun s => sized (image s)))
      with (acts := acts) (s := s0); [| | | exact Hall | | exact Hrun].
    - intros ok g s1 me tr Hok Hsz Hone. cbn in Hok. subst ok.
      destruct (processYUVImage_granted (image s1) g Hsz) as (me1 & H1 & Hs1 & _).
      rewrite H1 in Hone. injection Hone as <- _. exact Hs1.
    - intros be s1 s2 t Hsz Hone.
      pose proof (SDL_AppIterate_cases be s1) as Hc. rewrite Hone in Hc.
      destruct Hc as (_ & _ & _ & Hd & Hl & _).
      unfold sized, capacity in *. rewrite Hd, Hl. assumption.
    - intros d type s1 s2 Hsz Hone.
      pose proof (SDL_AppEvent_keeps_image d type s1) as (Hi & _).
      rewrite Hone in Hi. cbn in Hi. rewrite Hi. assumption.
    - destruct (SDL_AppInit_boot b s0 Hinit) as (Hi & _). rewrite Hi.
      reflexivity. }
  split; [assumption |].
  destruct (processYUVImage_granted (image s) f Hs)
    as (me & Hone & _ & _ & Hw & Hh & Hn & _ & _ & Hpre & _).
  exists me. repeat split; assumption.
Qed.

Lemma granted_run_accepts_frames_witness :
  SDL_AppInit portrait_phone = (SDL_APP_CONTINUE, Some booted)
  /\ Forall turn_granted [Frame true frame_100]
  /\ lifetime [Frame true frame_100] booted = Some (set_image image_100 booted)
  /\ sized (image (set_image image_100 booted))
  /\ exists me,
       processYUVImage true (image (set_image image_100 booted)) frame_50
       = Returns me []
       /\ new me = true /\ width me = fwidth frame_50
       /\ height me = fheight frame_50
       /\ firstn (List.length (yuv_data frame_50)) (stored me)
          = yuv_data frame_50.
Proof.
  split; [reflexivity |].
  split; [repeat constructor |].
  split; [reflexivity |].
  refine (granted_run_accepts_frames portrait_phone booted
            (set_image image_100 booted) [Frame true frame_100] frame_50
            eq_refl _ eq_refl).
  repeat constructor.
Defined.

(** ** Allocation and release of the image *)

(** Textures created and destroyed by a tick that reports
    [SDL_APP_CONTINUE]. *)
Lemma SDL_AppIterate_texture_balance (be : backend) (s s' : app)
    (t : list event) :
  SDL_AppIterate be s = (SDL_APP_CONTINUE, s', t) ->
  (List.length (filter is_create t) + held (image s)
   = List.length (filter is_destroy t) + held (image s'))%nat.
Proof.
  destruct s as [[tx d l wd ht vr nw] mW mH o sr].
  destruct be as [c u dr cl p].
  tick_unfold. unfold held.
  destruct (l =? 0) eqn:Hl; destruct (mW =? wd) eqn:HW; destruct (mH =? ht) eqn:HH;
    destruct cl; destruct tx as [old |]; destruct c; destruct nw;
    destruct u; destruct dr; destruct p;
    tick_cases Hl HW HH;
    intros Heq; inversion Heq; subst; clear Heq; reflexivity.
Qed.

Lemma lifetime_trace_balance (acts : list action) : forall s s' t,
  lifetime_trace acts s = Some (s', t) ->
  (List.length (filter is_create t) + held (image s)
   = List.length (filter is_destroy t) + held (image s'))%nat.
Proof.
  induction acts as [| [ok f | be | d type] acts IH]; intros s s' t;
    cbn [lifetime_trace].
  - intros [= <- <-]. reflexivity.
  - destruct (processYUVImage ok (image s) f) as [me tr | |] eqn:Hone;
      try discriminate.
    intros Hrest. specialize (IH _ _ _ Hrest). cbn [image set_image] in IH.
    destruct (processYUVImage_keeps_presenter ok (image s) me f tr Hone)
      as [Ht _].
    unfold held in *. rewrite Ht in IH. exact IH.
  - destruct (SDL_AppIterate be s) as [[[| |] s1] t1] eqn:Hone;
      try discriminate.
    destruct (lifetime_trace acts s1) as [[s2 t2] |] eqn:Hrest;
      try discriminate.
    intros [= <- <-].
    pose proof (SDL_AppIterate_texture_balance be s s1 t1 Hone) as H1.
    specialize (IH _ _ _ Hrest).
    rewrite !filter_app, !length_app. lia.
  - destruct (SDL_AppEvent d type s) as [[| |] s1] eqn:Hone; try discriminate.
    intros Hrest. specialize (IH _ _ _ Hrest).
    pose proof (SDL_AppEvent_keeps_image d type s) as (Hi & _).
    rewrite Hone in Hi. cbn in Hi. rewrite Hi in IH. exact IH.
Qed.

(** X17: no texture is leaked.  Over any run from start-up and the
    [SDL_AppQuit] that ends it, as many textures are destroyed (by the
    ticks when the frame size changes, and by [SDL_AppQuit]) as were
    created; [SDL_AppQuit] also frees the block if there is one, the
    mutex and, last, the image itself, each once. *)
Theorem no_texture_leak (b : boot) (s0 s : app) (acts : list action)
    (t : list event) :
  SDL_AppInit b = (SDL_APP_CONTINUE, Some s0) ->
  lifetime_trace acts s0 = Some (s, t) ->
  exists calls,
    SDL_AppQuit (image_of s) = Some calls
    /\ List.length (filter is_create t)
       = (List.length (filter is_destroy t)
          + List.length (filter is_texture_release calls))%nat
    /\ NoDup calls
    /\ last calls SDL_DestroyMutex = free_image
    /\ In SDL_DestroyMutex calls
    /\ (forall block, In (free_data block) calls <-> data (image s) = Some block).
Proof.
  intros Hinit Hrun.
  pose proof (lifetime_trace_balance acts s0 s t Hrun) as Hbal.
  destruct (SDL_AppInit_boot b s0 Hinit) as (Hi & _).
  rewrite Hi in Hbal. cbn [held texture cImage_zero] in Hbal.
  unfold SDL_AppQuit, image_of, cImage_Destroy, free_memory, held in *.
  cbn [fields mutex].
  eexists. split; [reflexivity |].
  destruct (data (image s)) as [block |]; destruct (texture (image s)) as [tx |];
    cbn in *; repeat split; try lia; auto;
    try (repeat constructor; cbn; intuition discriminate);
    try (intros [H | H]; try discriminate; try (injection H as ->; reflexivity);
         intuition discriminate);
    try (intros [= ->]; auto);
    try (intros Hin; intuition discriminate);
    try discriminate.
Qed.

Lemma no_texture_leak_witness :
  SDL_AppInit portrait_phone = (SDL_APP_CONTINUE, Some booted)
  /\ lifetime_trace [Frame true frame_100; Iterate all_ok] booted
     = Some (shown_100, calls_100)
  /\ exists calls,
       SDL_AppQuit (image_of shown_100) = Some calls
       /\ List.length (filter is_create calls_100)
          = (List.length (filter is_destroy calls_100)
             + List.length (filter is_texture_release calls))%nat
       /\ NoDup calls
       /\ last calls SDL_DestroyMutex = free_image
       /\ In SDL_DestroyMutex calls
       /\ (forall block,
             In (free_data block) calls <-> data (image shown_100) = Some block).
Proof.
  split; [reflexivity |]. split; [reflexivity |].
  exact (no_texture_leak portrait_phone booted shown_100
           [Frame true frame_100; Iterate all_ok] calls_100 eq_refl eq_refl).
Defined.

(** X18: the one start-up after which [SDL_AppQuit] reads freed memory.
    When the image has been allocated and [SDL_CreateMutex] fails,
    [cImage_New] frees the image on its way out but the pointer [image]
    keeps its address ([free_memory] clears only its own parameter);
    start-up reports [SDL_APP_FAILURE], and [cImage_Destroy(image)] in
    [SDL_AppQuit] then reads the freed image.  After every other
    start-up [SDL_AppQuit] finds [image] null or live; after a
    successful one it is the live image. *)
Theorem quit_after_failed_mutex (b : boot) :
  (SDL_AppQuit (image_after_init b) = None <->
   permission_requested b = true /\ sdl_initialized b = true
   /\ window_created b = true /\ image_allocated b = true
   /\ mutex_created b = false)
  /\ (SDL_AppQuit (image_after_init b) = None ->
      SDL_AppInit b = (SDL_APP_FAILURE, None)
      /\ cImage_New (image_allocated b) (mutex_created b)
         = (false, Dangling, [free_image]))
  /\ (forall s, SDL_AppInit b = (SDL_APP_CONTINUE, Some s) ->
                image_after_init b = image_of s).
Proof.
  unfold SDL_AppQuit, image_after_init, SDL_AppInit, image_of.
  destruct (permission_requested b), (sdl_initialized b), (window_created b),
    (image_allocated b), (mutex_created b); cbn;
    repeat split; intros; try discriminate; try reflexivity;
    try (decompose [and] H; discriminate).
  destruct (getOrientation (boot_display b) 270) as [ok o].
  destruct (getScreenRect _ _) as [ok' r].
  destruct (ok && ok'); [| discriminate].
  injection H as <-. reflexivity.
Qed.

(** ** The analyzer *)

Lemma int_small (z : Z) :
  0 <= z <= Integer_MAX_VALUE -> int z = z.
Proof.
  unfold int, Integer_MAX_VALUE. intros Hz.
  rewrite Z.mod_small by lia. lia.
Qed.

Lemma plane_bytes_cons (p : plane) (planes : list plane) :
  plane_bytes (p :: planes) = Z.of_nat (List.length p) + plane_bytes planes.
Proof. unfold plane_bytes. cbn. rewrite length_app. lia. Qed.

Lemma plane_bytes_nonneg (planes : list plane) : 0 <= plane_bytes planes.
Proof. unfold plane_bytes. lia. Qed.

Lemma totalSize_from (planes : list plane) : forall total,
  0 <= total ->
  total + plane_bytes planes <= Integer_MAX_VALUE ->
  fold_left (fun total p => int (total + Z.of_nat (List.length p))) planes total
  = total + plane_bytes planes.
Proof.
  induction planes as [| p planes IH]; intros total Hpos Hmax.
  - unfold plane_bytes. cbn. lia.
  - rewrite plane_bytes_cons in Hmax. cbn [fold_left].
    pose proof (plane_bytes_nonneg planes).
    rewrite int_small by lia. rewrite IH by lia.
    rewrite plane_bytes_cons. lia.
Qed.

Lemma copy_planes_from (planes : list plane) : forall done,
  Z.of_nat (List.length done) + plane_bytes planes <= Integer_MAX_VALUE ->
  copy_planes planes
    (done ++ repeat x00 (List.length (concat planes)))
    (Z.of_nat (List.length done))
  = inr (done ++ concat planes).
Proof.
  induction planes as [| p planes IH]; intros done Hmax.
  - cbn. reflexivity.
  - rewrite plane_bytes_cons in Hmax. pose proof (plane_bytes_nonneg planes).
    cbn [copy_planes concat]. unfold ByteBuffer_get.
    rewrite !length_app, repeat_length.
    destruct (Z.ltb_spec (Z.of_nat (List.length done)) 0); [lia |].
    destruct (Z.ltb_spec
                (Z.of_nat (List.length done
                           + (List.length p + List.length (concat planes))))
                (Z.of_nat (List.length done) + Z.of_nat (List.length p)));
      [lia |].
    cbn [orb]. rewrite Nat2Z.id.
    rewrite firstn_app, firstn_all, Nat.sub_diag. cbn [firstn].
    rewrite app_nil_r.
    rewrite skipn_app, skipn_all2 by lia.
    replace (List.length done + List.length p - List.length done)%nat
      with (List.length p) by lia.
    rewrite repeat_app, skipn_app, repeat_length, Nat.sub_diag.
    rewrite skipn_all2 by (rewrite repeat_length; lia).
    cbn [skipn List.app].
    rewrite int_small by lia.
    specialize (IH (done ++ p)).
    rewrite length_app, Nat2Z.inj_add in IH.
    rewrite <- !app_assoc in IH.
    apply IH. lia.
Qed.

Lemma processImage_concat (planes : list plane) (width height : Z) :
  plane_bytes planes <= Integer_MAX_VALUE ->
  processImage planes width height
  = inr {| yuv_data := concat planes; fwidth := width; fheight := height |}.
Proof.
  intros Hmax. unfold processImage, totalSize, new_bytes.
  rewrite totalSize_from by (cbn; lia). rewrite Z.add_0_l.
  pose proof (plane_bytes_nonneg planes).
  destruct (Z.ltb_spec (plane_bytes planes) 0); [lia |].
  unfold plane_bytes. rewrite Nat2Z.id.
  pose proof (copy_planes_from planes []) as Hcopy.
  change (Z.of_nat (List.length (@nil byte))) with 0 in Hcopy.
  cbn [List.app] in Hcopy.
  rewrite Hcopy by (fold (plane_bytes planes) in *; lia). reflexivity.
Qed.

(** X19: the analyzer hands the native side one array that holds the
    remaining bytes of the planes back to back, in plane order, with no
    gap and no overlap, and nothing else, together with the width and the
    height of the image (as long as the planes together fit a Java
    [int]). *)
Theorem processImage_concatenates (planes : list plane) (width height : Z) :
  plane_bytes planes <= Integer_MAX_VALUE ->
  processImage planes width height
  = inr {| yuv_data := concat planes; fwidth := width; fheight := height |}.
Proof.
  intros Hmax. unfold processImage, totalSize, new_bytes.
  rewrite totalSize_from by (cbn; lia). rewrite Z.add_0_l.
  pose proof (plane_bytes_nonneg planes).
  destruct (Z.ltb_spec (plane_bytes planes) 0); [lia |].
  unfold plane_bytes. rewrite Nat2Z.id.
  pose proof (copy_planes_from planes []) as Hcopy.
  change (Z.of_nat (List.length (@nil byte))) with 0 in Hcopy.
  cbn [List.app] in Hcopy.
  rewrite Hcopy by (fold (plane_bytes planes) in *; lia). reflexivity.
Qed.

Lemma processImage_concatenates_witness :
  plane_bytes planes_4x2 <= Integer_MAX_VALUE
  /\ processImage planes_4x2 4 2
     = inr {| yuv_data := concat planes_4x2; fwidth := 4; fheight := 2 |}.
Proof.
  split; [discriminate |].
  refine (processImage_concatenates planes_4x2 4 2 _). discriminate.
Defined.

(** X20: from the camera planes to the texture.  When the analyzer has
    processed an image (allocation granted) and the next texture update
    finds a backend that does what it is asked, the block uploaded starts
    with the planes' bytes in plane order, the pitch is the image width,
    and the cached texture size is the image size. *)
Theorem planes_reach_texture (be : backend) (s : app) (planes : list plane)
    (width height : Z) :
  sized (image s) ->
  plane_bytes planes <= Integer_MAX_VALUE ->
  concat planes <> [] ->
  create_ok be = true ->
  update_ok be = true ->
  exists me s' t block,
    analyze true planes width height (image s) = inr (Returns me [])
    /\ cImage_TextureUpdate be (set_image me s) = (true, s', t)
    /\ uploads t = [(Some block, width)]
    /\ firstn (List.length (concat planes)) block = concat planes
    /\ mWidth s' = width /\ mHeight s' = height
    /\ new (image s') = false.
Proof.
  intros Hs Hmax Hne Hc Hu. unfold analyze.
  rewrite processImage_concat by assumption.
  set (f := {| yuv_data := concat planes; fwidth := width; fheight := height |}).
  destruct (processYUVImage_granted (image s) f Hs)
    as (me & Hrun & Hsz & Hlen & Hw & Hh & Hn & _ & _ & Hpre & _).
  destruct (TextureUpdate_body_ok be (set_image me s) Hc (or_introl Hu))
    as (s' & t & Hupd & HmW & HmH & _ & _ & _ & _ & _ & _ & Hnew & Hup).
  cbn [image set_image yuv_data fwidth fheight f] in *.
  assert (Hnz : (length me =? 0) = false).
  { apply Z.eqb_neq. unfold GetArrayLength in Hlen.
    destruct (concat planes); [congruence | cbn in Hlen; lia]. }
  rewrite Hnz, Hn in *. cbn in Hnew, Hup.
  assert (Hblock : data me = Some (stored me)).
  { unfold sized, capacity in Hsz. unfold stored.
    destruct (data me); [reflexivity |].
    apply Z.eqb_neq in Hnz. congruence. }
  exists me, s', t, (stored me).
  unfold cImage_TextureUpdate, returned. rewrite Hrun, Hupd.
  repeat split; try congruence.
Qed.

Lemma planes_reach_texture_witness :
  sized (image booted)
  /\ plane_bytes planes_4x2 <= Integer_MAX_VALUE
  /\ concat planes_4x2 <> []
  /\ create_ok all_ok = true /\ update_ok all_ok = true
  /\ exists me s' t block,
       analyze true planes_4x2 4 2 (image booted) = inr (Returns me [])
       /\ cImage_TextureUpdate all_ok (set_image me booted) = (true, s', t)
       /\ uploads t = [(Some block, 4)]
       /\ firstn (List.length (concat planes_4x2)) block = concat planes_4x2
       /\ mWidth s' = 4 /\ mHeight s' = 2
       /\ new (image s') = false.
Proof.
  split; [reflexivity |]. split; [discriminate |]. split; [discriminate |].
  split; [reflexivity |]. split; [reflexivity |].
  refine (planes_reach_texture all_ok booted planes_4x2 4 2
            eq_refl _ _ eq_refl eq_refl); discriminate.
Defined.

(** ** Layout, once more *)

Local Open Scope Q_scope.




Local Close Scope Q_scope.
